(* ===== verification/_CoqProject ===== *)
-Q . S2P
Prelude.v
Device.v
Shutter.v
Text.v
SoftFloat.v
Brightness.v
Dispatcher.v
Loop.v
Typing.v
