(* ===== verification/Prelude.v ===== *)
(** * ArduinoFlatBox: a verification development of the flat-panel firmware

    The program ([src/src/main.cpp], [src/src/main.h]) is the firmware of
    a PC-controlled light box speaking the Alnitak (Flip-Flat / Flat-Man)
    command set.  Its parts share the global variables of main.cpp 67-76:

    - the command dispatcher [handleSerial] (main.cpp 103-247): once six
      bytes are buffered it reads one frame up to ['\r'] into a 20-byte
      buffer, switches on the letter [str[1]], updates the light, computes
      the brightness of the [B] command in floating point, asks the
      shutter to open or close through [setShutter], and writes one
      [sprintf]-formatted reply;
    - the shutter engine [setShutter] / [handleMotor] (249-283): an
      open-loop state machine over [motorDirection], [targetAngle] and
      [currentAngle] that moves the servo one degree per loop iteration
      and maintains [motorStatus] and [coverStatus];
    - the control loop [loop] (89-101): the dispatcher, one motor step,
      then the override switch: on a change of [digitalRead(SWITCH_PIN)]
      the servo is attached or detached; [setup] (78-87) initialises the
      peripherals.

    ** Files, in dependency order

    - [Prelude] (this file): the [flatbox_scope] notation [f ^^ n] for
      [n] loop iterations, the [flatbox] hint database, the tactics
      [decide_true] and [by_eval] that discharge closed hypotheses by
      evaluation, range checks by evaluation ([Z_forall_in]) and lemmas
      on [Nat.iter].
    - [Device]: the enums of main.cpp 37-65 with their C values, the
      constants of main.h 7-13, the globals as the fields of [State], one
      setter per assignment, the peripherals as a trace [io] of [event]s
      (newest first) with observers ([led_level], [servo_attached],
      [replies], [delayed], ...), the initial values [globals_init], and
      the class [ShutterControl]: what the dispatcher relies on of
      [setShutter] (it changes only the direction and the target, and
      performs no I/O).
    - [Text]: the C library functions of the replies and the payload:
      [atoi] (C standard: white space, sign, digits), the [%d] and [%03d]
      conversions of [sprintf]; round trip and bounds.
    - [SoftFloat]: IEEE-754 round-to-nearest-even on [Z] mantissa and
      exponent at a precision of [p] bits: [(double)] of an integer, a
      decimal literal, products, and the cast [(int)].
    - [Brightness]: the curve of main.cpp 196-197, its exact integer
      form and its range and shape.
    - [Shutter]: [setShutter], [handleMotor] and the instance of
      [ShutterControl]; the invariant [shutter_inv]; the abstract
      four-phase machine of the spec ([Module Abstract]) with the
      abstraction [phase_of]; termination and timing of a motion.
    - [Dispatcher]: [Serial.readBytesUntil], the frame decoding and
      [handleSerial] with every case of the [switch], in a [Section] over
      [ShutterControl]: its theorems use only the interface.
    - [Loop]: [switch_edge], [loop], [setup], one [iteration] (bytes
      arrive, then [loop] runs with the switch at some level), the run
      relation [reachable], [run_loop] over a list of switch levels, and
      the end-to-end theorems.
    - [Typing]: the C types of the AVR target (16-bit [int], byte duty
      cycles, servo angles) and the proof that the unbounded model never
      leaves them.

    ** What the theorems show

    - Invariant (C1, C8): every state reachable from [setup] under any
      input satisfies [system_inv]: the shutter invariant, the LED
      driven at the brightness exactly when the light is on, the servo
      powered exactly when the switch was last sampled high.  Proved by
      rule induction on [reachable].
    - Refinement (C2, C3): [setShutter] followed by [handleMotor] moves
      [phase_of] as [Abstract.request] then [Abstract.tick], and the [S]
      reply reports the abstract phase.
    - Dispatcher (C4, C10, C11, C12, C13, C20, C22, C23): exactly one
      frame consumed and one reply per known command, the [B] and [J]
      reply fields read back as the stored brightness, silence on
      unknown letters and partial frames, replies fit the 10-byte
      [temp], the start marker is never checked, CRLF requests after the
      first are dropped, a 20-byte line leaves [str] without terminator.
    - Shutter engine (C5, C7, C14, C17, C25): opening and closing take 270
      iterations and 270 delays of [SERVO_DELAY] ms, every motion ends
      within 270 steps, a reversal takes effect at the next step, an
      opening writes the angles 269 down to 0, 89 of them above 180.
    - Brightness (C6, C18, C24): in binary32 (the 32-bit [double] of the
      AVR boards) and binary64 alike the float curve equals
      [min 255 (394 (x-3)^2 / 100000)] on every value -99..999 a
      three-byte payload can give; the payloads 000..255 give at most 250;
      the curve is monotone from 3 and never sets the level 74.
    - Types (C26): in every reachable state the [int] globals fit 16
      bits and every [analogWrite], [Servo.write] and [attach] call has
      arguments of its type, so unbounded [Z] is a faithful model of the
      sketch's [int] arithmetic.
    - Liveness (C27, C28): [n] buffered requests are answered in [n]
      iterations, in order; an open request with the switch held on ends
      with the cover open after 270 iterations of [loop].
    - Whole iterations (C9, C15, C16, C19, C21): requests followed
      through one or two loop iterations (brightness echo, light restore,
      requests with the switch off, [O] on every device), and a motion
      that runs to its end with the servo detached.
    - Library lemmas (no claim): [atoi] reads back [%03d] and reads at
      most [n] digits of [n] characters ([Text]); rounding is within half
      an ulp ([SoftFloat]).

    ** Bounds and fuel

    [utoa] recurses with fuel [1 + log2 n], at least the number of
    decimal digits of [n] ([utoa_value] shows the fuel is enough).  The
    floating-point checks run over -99..1099 by [vm_compute]: [atoi] of
    three bytes lies in -99..999 ([atoi_bound]), so the check covers
    every payload.  Floats have an unbounded exponent: the values of the
    curve lie between 2^-9 and 2^12, inside the normal range of both
    formats.  Motions are counted in iterations of [handleMotor]
    ([f ^^ n]); 270 = [CLOSED_ANGLE - OPEN_ANGLE] steps suffice.

    ** Not modelled

    The Arduino core and the Servo library are recorded as events, not
    executed: the Servo library's clamping of [write] to 0..180, PWM,
    the UART and the one-second timeout of [readBytesUntil] (the model
    reads the bytes already received).  [int] arithmetic is unbounded;
    C26 shows that the globals stay within 16 bits.  The payload of a
    six-byte frame gives [atoi] a value in -99..999, on which the curve
    is at most 3908 before [constrain]; [atoi] and the [(int)] cast of
    line 197 on longer lines (e.g. [>B3000]), whose 16-bit overflow is
    undefined in C, are modelled unbounded, and no theorem depends on
    them: the curve theorems are stated on three-character payloads, and
    C13 only uses the clamp of [constrain].  C's undefined read past
    [str] (C23) is modelled as the end of the buffer. *)

From stdpp Require Export base decidable list strings.
From Stdlib Require Export ZArith Ascii Lia.

Declare Scope flatbox_scope.
Delimit Scope flatbox_scope with fb.

(** [f ^^ n] is [n] applications of [f]: [n] iterations of the loop. *)
Notation "f ^^ n" := (Nat.iter n f) (at level 30, right associativity)
  : flatbox_scope.

Create HintDb flatbox.
Create Rewrite HintDb flatbox.

(** ** Integer ranges checked by evaluation *)

Definition Z_forall_in (lo : Z) (n : nat) (p : Z -> bool) : bool :=
  forallb (fun k => p (lo + Z.of_nat k)%Z) (seq 0 n).

Lemma Z_forall_in_spec lo n p :
  Z_forall_in lo n p = true ->
  forall x, (lo <= x < lo + Z.of_nat n)%Z -> p x = true.
Proof.
  unfold Z_forall_in. intros Hall x Hx.
  rewrite forallb_forall in Hall.
  replace x with (lo + Z.of_nat (Z.to_nat (x - lo)))%Z by lia.
  apply Hall, in_seq. lia.
Qed.

(** ** Iteration *)

Lemma iter_add {A} (f : A -> A) (n m : nat) (x : A) :
  Nat.iter (n + m) f x = Nat.iter n f (Nat.iter m f x).
Proof. induction n as [|n IH]; simpl; congruence. Qed.

Lemma iter_fixpoint {A} (f : A -> A) (n : nat) (x : A) :
  f x = x -> Nat.iter n f x = x.
Proof. intros Hx. induction n as [|n IH]; simpl; congruence. Qed.

Lemma iter_invariant {A} (P : A -> Prop) (f : A -> A) (n : nat) (x : A) :
  (forall y, P y -> P (f y)) -> P x -> P (Nat.iter n f x).
Proof. intros Hf Hx. induction n; simpl; auto. Qed.


(** ** Tactics *)

(** Case analysis on every boolean test [bool_decide] of the goal. *)
Ltac case_bool_decide_all :=
  repeat match goal with
         | |- context [bool_decide ?P] => destruct (bool_decide_reflect P)
         end.

(** Close a goal decided by evaluation of its closed parts. *)
Ltac by_eval := vm_compute; reflexivity.

(** Prove a decidable proposition on closed data by evaluating its decision. *)
Ltac decide_true :=
  match goal with |- ?P => apply (bool_decide_unpack P); vm_compute; exact I end.
