(* ===== verification/Device.v ===== *)
(** * Device: the data model of main.cpp and main.h

    The enums of main.cpp 37-65 become inductive types with the integer
    value C gives each constant; the global variables of 67-76 and the
    peripherals the sketch drives (the serial port, the LED pin, the
    servo object [myservo] of line 35, [delay]) are one [State] record.
    Peripheral effects are not overwritten in place: every call to
    [Serial.write], [analogWrite], [myservo.write], [attach], [detach]
    and [delay] is appended to a trace [io] (most recent first), so the
    order of effects inside one handler is kept.  The [ShutterControl]
    class is the interface the dispatcher relies on. *)

From S2P Require Import Prelude.
Open Scope Z_scope.

(** ** Constants of main.h *)

Definition LED_PIN : Z := 6.
Definition SWITCH_PIN : Z := 10.
Definition SERVO_PIN : Z := 9.
Definition CLOSED_ANGLE : Z := 270.
Definition OPEN_ANGLE : Z := 0.
Definition SERVO_DELAY : Z := 15.
Definition SERVO_INITIAL_WAIT : Z := 2000.

(** ** Enums of main.cpp, with their C values *)

Inductive devices := FLAT_MAN_L | FLAT_MAN_XL | FLAT_MAN | FLIP_FLAT.

Definition devices_val (d : devices) : Z :=
  match d with
  | FLAT_MAN_L => 10 | FLAT_MAN_XL => 15 | FLAT_MAN => 19 | FLIP_FLAT => 99
  end.

Inductive motorStatuses := STOPPED | RUNNING.

Definition motorStatuses_val (m : motorStatuses) : Z :=
  match m with STOPPED => 0 | RUNNING => 1 end.

Inductive lightStatuses := OFF | ON.

Definition lightStatuses_val (l : lightStatuses) : Z :=
  match l with OFF => 0 | ON => 1 end.

Inductive shutterStatuses := NEITHER_OPEN_NOR_CLOSED | CLOSED | OPEN | TIMED_OUT.

Definition shutterStatuses_val (c : shutterStatuses) : Z :=
  match c with
  | NEITHER_OPEN_NOR_CLOSED => 0 | CLOSED => 1 | OPEN => 2 | TIMED_OUT => 3
  end.

(** The C enum is [motorDirection]; the plural keeps the name of the
    global variable [motorDirection] free for the state field. *)
Inductive motorDirections := OPENING | CLOSING | NONE.

Definition motorDirections_val (d : motorDirections) : Z :=
  match d with OPENING => 0 | CLOSING => 1 | NONE => 2 end.

#[export] Instance devices_eq_dec : EqDecision devices.
Proof. solve_decision. Defined.
#[export] Instance motorStatuses_eq_dec : EqDecision motorStatuses.
Proof. solve_decision. Defined.
#[export] Instance lightStatuses_eq_dec : EqDecision lightStatuses.
Proof. solve_decision. Defined.
#[export] Instance shutterStatuses_eq_dec : EqDecision shutterStatuses.
Proof. solve_decision. Defined.
#[export] Instance motorDirections_eq_dec : EqDecision motorDirections.
Proof. solve_decision. Defined.

(** ** Effects on the peripherals *)

Inductive pin_mode := INPUT | OUTPUT.

Inductive event :=
  | SerialBegin (baud : Z)
  | PinMode (pin : Z) (mode : pin_mode)
  | SerialWrite (bytes : list ascii)
  | AnalogWrite (pin : Z) (value : Z)
  | ServoAttach (pin : Z)
  | ServoDetach
  | ServoWrite (value : Z)
  | Delay (ms : Z).

(** ** The state: the globals of main.cpp 67-76 and the peripherals *)

Record State := mkState {
  deviceId : devices;
  motorStatus : motorStatuses;
  coverStatus : shutterStatuses;
  motorDirection : motorDirections;
  targetAngle : Z;
  currentAngle : Z;
  lightStatus : lightStatuses;
  brightness : Z;
  lastSwitchState : bool;
  currentSwitchState : bool;
  serialIn : list ascii;   (** bytes received and not yet read *)
  io : list event          (** effects performed, most recent first *)
}.

(** Assignments to one global, as the C statements do them. *)
Definition set_motorStatus (v : motorStatuses) (s : State) : State :=
  mkState (deviceId s) v (coverStatus s) (motorDirection s) (targetAngle s) (currentAngle s) (lightStatus s) (brightness s) (lastSwitchState s) (currentSwitchState s) (serialIn s) (io s).
Definition set_coverStatus (v : shutterStatuses) (s : State) : State :=
  mkState (deviceId s) (motorStatus s) v (motorDirection s) (targetAngle s) (currentAngle s) (lightStatus s) (brightness s) (lastSwitchState s) (currentSwitchState s) (serialIn s) (io s).
Definition set_motorDirection (v : motorDirections) (s : State) : State :=
  mkState (deviceId s) (motorStatus s) (coverStatus s) v (targetAngle s) (currentAngle s) (lightStatus s) (brightness s) (lastSwitchState s) (currentSwitchState s) (serialIn s) (io s).
Definition set_targetAngle (v : Z) (s : State) : State :=
  mkState (deviceId s) (motorStatus s) (coverStatus s) (motorDirection s) v (currentAngle s) (lightStatus s) (brightness s) (lastSwitchState s) (currentSwitchState s) (serialIn s) (io s).
Definition set_currentAngle (v : Z) (s : State) : State :=
  mkState (deviceId s) (motorStatus s) (coverStatus s) (motorDirection s) (targetAngle s) v (lightStatus s) (brightness s) (lastSwitchState s) (currentSwitchState s) (serialIn s) (io s).
Definition set_lightStatus (v : lightStatuses) (s : State) : State :=
  mkState (deviceId s) (motorStatus s) (coverStatus s) (motorDirection s) (targetAngle s) (currentAngle s) v (brightness s) (lastSwitchState s) (currentSwitchState s) (serialIn s) (io s).
Definition set_brightness (v : Z) (s : State) : State :=
  mkState (deviceId s) (motorStatus s) (coverStatus s) (motorDirection s) (targetAngle s) (currentAngle s) (lightStatus s) v (lastSwitchState s) (currentSwitchState s) (serialIn s) (io s).
Definition set_lastSwitchState (v : bool) (s : State) : State :=
  mkState (deviceId s) (motorStatus s) (coverStatus s) (motorDirection s) (targetAngle s) (currentAngle s) (lightStatus s) (brightness s) v (currentSwitchState s) (serialIn s) (io s).
Definition set_currentSwitchState (v : bool) (s : State) : State :=
  mkState (deviceId s) (motorStatus s) (coverStatus s) (motorDirection s) (targetAngle s) (currentAngle s) (lightStatus s) (brightness s) (lastSwitchState s) v (serialIn s) (io s).
Definition set_serialIn (v : list ascii) (s : State) : State :=
  mkState (deviceId s) (motorStatus s) (coverStatus s) (motorDirection s) (targetAngle s) (currentAngle s) (lightStatus s) (brightness s) (lastSwitchState s) (currentSwitchState s) v (io s).

(** Perform one peripheral effect. *)
Definition emit (e : event) (s : State) : State :=
  mkState (deviceId s) (motorStatus s) (coverStatus s) (motorDirection s) (targetAngle s) (currentAngle s) (lightStatus s) (brightness s) (lastSwitchState s) (currentSwitchState s) (serialIn s) (e :: io s).

(** Bytes arriving on the serial line. *)
Definition receive (bytes : list ascii) (s : State) : State :=
  set_serialIn (serialIn s ++ bytes) s.

(** The initial values of the declarations 67-76; [deviceId] is the
    build-time choice of product (line 67 selects [FLIP_FLAT]). *)
Definition globals_init (dev : devices) : State :=
  {| deviceId := dev;
     motorStatus := STOPPED;
     coverStatus := CLOSED;
     motorDirection := NONE;
     targetAngle := CLOSED_ANGLE;
     currentAngle := CLOSED_ANGLE;
     lightStatus := OFF;
     brightness := 0;
     lastSwitchState := false;
     currentSwitchState := false;
     serialIn := [];
     io := [] |}.

(** ** Observations of the peripherals through the trace *)

(** The duty cycle last written to the LED pin. *)
Fixpoint led_level (tr : list event) : option Z :=
  match tr with
  | [] => None
  | AnalogWrite p v :: tr' => if bool_decide (p = LED_PIN) then Some v else led_level tr'
  | _ :: tr' => led_level tr'
  end.

(** The value last written to the servo. *)
Fixpoint servo_value (tr : list event) : option Z :=
  match tr with
  | [] => None
  | ServoWrite v :: _ => Some v
  | _ :: tr' => servo_value tr'
  end.

(** The values written to the servo, oldest first. *)
Fixpoint servo_writes (tr : list event) : list Z :=
  match tr with
  | [] => []
  | ServoWrite v :: tr' => servo_writes tr' ++ [v]
  | _ :: tr' => servo_writes tr'
  end.

(** Whether the servo is attached (powered) after the trace. *)
Fixpoint servo_attached (tr : list event) : bool :=
  match tr with
  | [] => false
  | ServoAttach _ :: _ => true
  | ServoDetach :: _ => false
  | _ :: tr' => servo_attached tr'
  end.

(** Everything written to the serial port, in the order it was sent. *)
Fixpoint serial_output (tr : list event) : list ascii :=
  match tr with
  | [] => []
  | SerialWrite b :: tr' => serial_output tr' ++ b
  | _ :: tr' => serial_output tr'
  end.

(** The replies written, oldest first. *)
Fixpoint replies (tr : list event) : list (list ascii) :=
  match tr with
  | [] => []
  | SerialWrite b :: tr' => replies tr' ++ [b]
  | _ :: tr' => replies tr'
  end.

(** Time spent in [delay], in milliseconds. *)
Fixpoint delayed (tr : list event) : Z :=
  match tr with
  | [] => 0
  | Delay ms :: tr' => ms + delayed tr'
  | _ :: tr' => delayed tr'
  end.

(** ** The interface of the shutter engine, as the dispatcher uses it

    [handleSerial] only calls [setShutter(OPEN)] and [setShutter(CLOSED)].
    What it relies on: the call changes no global other than
    [motorDirection] and [targetAngle], and performs no I/O. *)

Definition shutter_frame (s : State) :=
  (deviceId s, motorStatus s, coverStatus s, currentAngle s, lightStatus s,
   brightness s, lastSwitchState s, currentSwitchState s, serialIn s, io s).

Class ShutterControl := {
  sc_setShutter : shutterStatuses -> State -> State;
  sc_setShutter_frame : forall v s, shutter_frame (sc_setShutter v s) = shutter_frame s
}.

(** ** Lemmas on the setters *)

Ltac state_simpl :=
  cbn [set_motorStatus set_coverStatus set_motorDirection set_targetAngle
       set_currentAngle set_lightStatus set_brightness set_lastSwitchState
       set_currentSwitchState set_serialIn emit receive
       deviceId motorStatus coverStatus motorDirection targetAngle currentAngle
       lightStatus brightness lastSwitchState currentSwitchState serialIn io] in *.

Lemma led_level_emit_other e s :
  (forall v, e <> AnalogWrite LED_PIN v) ->
  led_level (io (emit e s)) = led_level (io s).
Proof.
  intros He. destruct e; simpl; try reflexivity.
  case_bool_decide; [subst; exfalso; eapply He; reflexivity | reflexivity].
Qed.

Lemma serial_output_replies tr : serial_output tr = concat (replies tr).
Proof.
  induction tr as [|e tr IH]; [reflexivity|].
  destruct e; simpl; rewrite ?concat_app; simpl; rewrite ?app_nil_r; congruence.
Qed.
