(* ===== verification/Shutter.v ===== *)
(** * Shutter: the motor state machine of main.cpp 249-283

    [setShutter] (249-258) turns an open or close request into a
    direction and a target angle, if the override switch was on when the
    loop last sampled it; [handleMotor] (260-283) moves [currentAngle]
    one degree towards [targetAngle], writes it to the servo, waits
    [SERVO_DELAY] ms, and on arrival stops the motor and records the cover
    as open or closed.  This file holds the two operations, the invariant
    that the control loop maintains between iterations, the abstract
    four-state machine of the spec with the refinement theorem, and the
    termination and timing of a motion. *)

From S2P Require Import Prelude Device.
Open Scope Z_scope.
Open Scope flatbox_scope.

(** ** Operations *)

(** main.cpp 249-258.  [val] is [OPEN] or [CLOSED] at both call sites. *)
Definition setShutter (val : shutterStatuses) (s : State) : State :=
  if negb (currentSwitchState s) then s
  else if bool_decide (val = OPEN) && bool_decide (coverStatus s <> OPEN) then
    set_targetAngle OPEN_ANGLE (set_motorDirection OPENING s)
  else if bool_decide (val = CLOSED) && bool_decide (coverStatus s <> CLOSED) then
    set_targetAngle CLOSED_ANGLE (set_motorDirection CLOSING s)
  else s.

(** The arrival test of 265-269 (resp. 276-280), after the step. *)
Definition arrive (reached : bool) (final : shutterStatuses) (s : State) : State :=
  if reached
  then set_coverStatus final (set_motorDirection NONE (set_motorStatus STOPPED s))
  else s.

(** main.cpp 260-283: [myservo.write(--currentAngle)] decrements before
    writing, [myservo.write(++currentAngle)] increments before writing. *)
Definition handleMotor (s : State) : State :=
  if bool_decide (currentAngle s > targetAngle s)
     && bool_decide (motorDirection s = OPENING) then
    let s1 := set_coverStatus NEITHER_OPEN_NOR_CLOSED (set_motorStatus RUNNING s) in
    let a := currentAngle s1 - 1 in
    let s2 := emit (ServoWrite a) (set_currentAngle a s1) in
    let s3 := arrive (bool_decide (a <= targetAngle s2)) OPEN s2 in
    emit (Delay SERVO_DELAY) s3
  else if bool_decide (currentAngle s < targetAngle s)
          && bool_decide (motorDirection s = CLOSING) then
    let s1 := set_coverStatus NEITHER_OPEN_NOR_CLOSED (set_motorStatus RUNNING s) in
    let a := currentAngle s1 + 1 in
    let s2 := emit (ServoWrite a) (set_currentAngle a s1) in
    let s3 := arrive (bool_decide (a >= targetAngle s2)) CLOSED s2 in
    emit (Delay SERVO_DELAY) s3
  else s.

#[export] Instance shutter_control : ShutterControl.
Proof.
  refine {| sc_setShutter := setShutter |}.
  intros v s. unfold setShutter. repeat case_match; reflexivity.
Defined.

(** ** The invariant between loop iterations *)

(** While moving, the motor runs, the cover reads "moving" and the angle is
    strictly between the end points; at rest the motor is stopped and the
    cover status names the end point the angle and the target are at. *)
Definition shutter_inv (s : State) : Prop :=
  match motorDirection s with
  | NONE =>
      motorStatus s = STOPPED /\
      ((coverStatus s = OPEN /\ currentAngle s = OPEN_ANGLE /\ targetAngle s = OPEN_ANGLE) \/
       (coverStatus s = CLOSED /\ currentAngle s = CLOSED_ANGLE /\ targetAngle s = CLOSED_ANGLE))
  | OPENING =>
      motorStatus s = RUNNING /\ coverStatus s = NEITHER_OPEN_NOR_CLOSED /\
      targetAngle s = OPEN_ANGLE /\ OPEN_ANGLE < currentAngle s < CLOSED_ANGLE
  | CLOSING =>
      motorStatus s = RUNNING /\ coverStatus s = NEITHER_OPEN_NOR_CLOSED /\
      targetAngle s = CLOSED_ANGLE /\ OPEN_ANGLE < currentAngle s < CLOSED_ANGLE
  end.

#[export] Instance shutter_inv_dec s : Decision (shutter_inv s).
Proof. unfold shutter_inv. destruct (motorDirection s); apply _. Defined.

(** The number of motor steps left before the current motion ends. *)
Definition steps_left (s : State) : Z :=
  match motorDirection s with
  | OPENING => currentAngle s - targetAngle s
  | CLOSING => targetAngle s - currentAngle s
  | NONE => 0
  end.

(** What one motor step needs of a state: a moving shutter targets the end
    point of its direction and has not passed it.  This holds between
    loop iterations and also right after a request. *)
Definition motion_ok (s : State) : Prop :=
  match motorDirection s with
  | OPENING => targetAngle s = OPEN_ANGLE /\ OPEN_ANGLE < currentAngle s <= CLOSED_ANGLE
  | CLOSING => targetAngle s = CLOSED_ANGLE /\ OPEN_ANGLE <= currentAngle s < CLOSED_ANGLE
  | NONE => True
  end.

(** The signed step of a direction and the cover status it ends in. *)
Definition dir_step (d : motorDirections) : Z :=
  match d with OPENING => -1 | CLOSING => 1 | NONE => 0 end.

Definition dir_goal (d : motorDirections) : shutterStatuses :=
  match d with OPENING => OPEN | CLOSING => CLOSED | NONE => NEITHER_OPEN_NOR_CLOSED end.

(** The fields one motor step leaves alone. *)
Definition motor_frame (s : State) :=
  (deviceId s, lightStatus s, brightness s, lastSwitchState s, currentSwitchState s, serialIn s).

(** ** The abstract machine of the spec (section 4.2)

    Four phases: at rest closed, at rest open, moving towards open and
    moving towards closed (with the commanded angle). *)

Module Abstract.

Inductive phase :=
  | IdleClosed
  | IdleOpen
  | MovingOpen (angle : Z)
  | MovingClosed (angle : Z).

(** A request, with the override switch [enabled] or not. *)
Definition request (val : shutterStatuses) (enabled : bool) (p : phase) : phase :=
  if negb enabled then p else
  match val, p with
  | OPEN, IdleOpen => IdleOpen
  | OPEN, IdleClosed => MovingOpen CLOSED_ANGLE
  | OPEN, (MovingOpen a | MovingClosed a) => MovingOpen a
  | CLOSED, IdleClosed => IdleClosed
  | CLOSED, IdleOpen => MovingClosed OPEN_ANGLE
  | CLOSED, (MovingOpen a | MovingClosed a) => MovingClosed a
  | _, _ => p
  end.

(** One tick of the motor: one degree, and rest on arrival. *)
Definition tick (p : phase) : phase :=
  match p with
  | MovingOpen a => if bool_decide (a - 1 <= OPEN_ANGLE) then IdleOpen else MovingOpen (a - 1)
  | MovingClosed a => if bool_decide (a + 1 >= CLOSED_ANGLE) then IdleClosed else MovingClosed (a + 1)
  | p => p
  end.

(** What the [S] command reports of a phase: motor and cover status. *)
Definition status (p : phase) : motorStatuses * shutterStatuses :=
  match p with
  | IdleClosed => (STOPPED, CLOSED)
  | IdleOpen => (STOPPED, OPEN)
  | MovingOpen _ | MovingClosed _ => (RUNNING, NEITHER_OPEN_NOR_CLOSED)
  end.

End Abstract.

(** The abstraction of a concrete state: its phase. *)
Definition phase_of (s : State) : Abstract.phase :=
  match motorDirection s with
  | OPENING => Abstract.MovingOpen (currentAngle s)
  | CLOSING => Abstract.MovingClosed (currentAngle s)
  | NONE => if bool_decide (coverStatus s = OPEN) then Abstract.IdleOpen else Abstract.IdleClosed
  end.

(** ** Equations of [handleMotor], one per branch *)

Lemma handleMotor_opening s :
  motorDirection s = OPENING -> targetAngle s < currentAngle s ->
  handleMotor s =
  emit (Delay SERVO_DELAY)
    (arrive (bool_decide (currentAngle s - 1 <= targetAngle s)) OPEN
       (emit (ServoWrite (currentAngle s - 1))
          (set_currentAngle (currentAngle s - 1)
             (set_coverStatus NEITHER_OPEN_NOR_CLOSED (set_motorStatus RUNNING s))))).
Proof.
  intros Hd Hlt. unfold handleMotor. rewrite Hd.
  rewrite (bool_decide_eq_true_2 (currentAngle s > targetAngle s)) by lia.
  reflexivity.
Qed.

Lemma handleMotor_closing s :
  motorDirection s = CLOSING -> currentAngle s < targetAngle s ->
  handleMotor s =
  emit (Delay SERVO_DELAY)
    (arrive (bool_decide (currentAngle s + 1 >= targetAngle s)) CLOSED
       (emit (ServoWrite (currentAngle s + 1))
          (set_currentAngle (currentAngle s + 1)
             (set_coverStatus NEITHER_OPEN_NOR_CLOSED (set_motorStatus RUNNING s))))).
Proof.
  intros Hd Hlt. unfold handleMotor. rewrite Hd.
  rewrite (bool_decide_eq_true_2 (currentAngle s < targetAngle s)) by lia.
  rewrite (bool_decide_eq_false_2 (CLOSING = OPENING)) by discriminate.
  rewrite andb_false_r. reflexivity.
Qed.

Lemma handleMotor_stay s :
  (motorDirection s = OPENING -> currentAngle s <= targetAngle s) ->
  (motorDirection s = CLOSING -> targetAngle s <= currentAngle s) ->
  handleMotor s = s.
Proof.
  intros Ho Hc. unfold handleMotor.
  destruct (motorDirection s); simpl;
    [rewrite (bool_decide_eq_false_2 (currentAngle s > targetAngle s)) by (specialize (Ho eq_refl); lia)
    |rewrite (bool_decide_eq_false_2 (currentAngle s < targetAngle s)) by (specialize (Hc eq_refl); lia)
    |]; rewrite ?andb_false_r, ?andb_false_l; reflexivity.
Qed.

Lemma handleMotor_rest s : motorDirection s = NONE -> handleMotor s = s.
Proof. intros Hd. apply handleMotor_stay; rewrite Hd; discriminate. Qed.

(** Split on the branch [handleMotor s] takes and rewrite with its equation. *)
Ltac motor_cases s :=
  let Hd := fresh "Hd" in
  let Hc := fresh "Hc" in
  destruct (motorDirection s) eqn:Hd;
  [ destruct (Z_lt_ge_dec (targetAngle s) (currentAngle s)) as [Hc|Hc];
      [ rewrite (handleMotor_opening s Hd Hc)
      | rewrite (handleMotor_stay s) by (rewrite Hd; intros ?; first [discriminate | lia]) ]
  | destruct (Z_lt_ge_dec (currentAngle s) (targetAngle s)) as [Hc|Hc];
      [ rewrite (handleMotor_closing s Hd Hc)
      | rewrite (handleMotor_stay s) by (rewrite Hd; intros ?; first [discriminate | lia]) ]
  | rewrite (handleMotor_rest s Hd) ];
  unfold arrive; repeat case_bool_decide; state_simpl; rewrite ?Hd in *; simpl in *.

Ltac leaf := first [reflexivity | discriminate | congruence | lia].

(** Close the arithmetic and enum goals left after the case split. *)
Ltac shutter_solve :=
  unfold OPEN_ANGLE, CLOSED_ANGLE in *; simpl in *; intros;
  repeat match goal with
         | H : _ /\ _ |- _ => destruct H
         | H : _ \/ _ |- _ => destruct H
         end;
  repeat split; try leaf;
  try (left; repeat split; leaf); try (right; repeat split; leaf).

Lemma setShutter_disabled v s : currentSwitchState s = false -> setShutter v s = s.
Proof. intros H. unfold setShutter. rewrite H. reflexivity. Qed.

Lemma setShutter_switch v s : currentSwitchState (setShutter v s) = currentSwitchState s.
Proof. unfold setShutter. repeat case_match; reflexivity. Qed.

Lemma handleMotor_keeps_switch s :
  currentSwitchState (handleMotor s) = currentSwitchState s /\
  lastSwitchState (handleMotor s) = lastSwitchState s /\
  serialIn (handleMotor s) = serialIn s.
Proof. unfold handleMotor, arrive. repeat case_match; state_simpl; auto. Qed.

#[export] Hint Resolve handleMotor_rest setShutter_disabled : flatbox.

(** ** The invariant is preserved by one loop iteration's motor work *)

Lemma inv_motion_ok s : shutter_inv s -> motion_ok s.
Proof. unfold shutter_inv, motion_ok. case_match; shutter_solve. Qed.

(** A state where a motion may have just been requested: a motor step
    brings it back into the invariant. *)
Lemma motion_ok_step_inv u :
  motion_ok u -> (motorDirection u = NONE -> shutter_inv u) -> shutter_inv (handleMotor u).
Proof.
  unfold motion_ok, shutter_inv. intros Hok Hnone.
  motor_cases u; shutter_solve; specialize (Hnone eq_refl); shutter_solve.
Qed.

Lemma handleMotor_inv s : shutter_inv s -> shutter_inv (handleMotor s).
Proof.
  intros Hs. apply motion_ok_step_inv; [by apply inv_motion_ok | auto].
Qed.

Lemma request_motion_ok v s : shutter_inv s -> motion_ok (setShutter v s).
Proof.
  intros Hs. unfold setShutter.
  destruct (currentSwitchState s); simpl; [|by apply inv_motion_ok].
  repeat case_bool_decide; simpl; try by apply inv_motion_ok.
  all: revert Hs; unfold shutter_inv, motion_ok; state_simpl; case_match; shutter_solve.
Qed.

Lemma request_rest_inv v s :
  shutter_inv s -> motorDirection (setShutter v s) = NONE -> shutter_inv (setShutter v s).
Proof.
  intros Hs. unfold setShutter.
  destruct (currentSwitchState s); simpl; [|auto].
  repeat case_bool_decide; simpl; state_simpl; auto; discriminate.
Qed.

(** A request followed by the motor step of the same loop iteration. *)
Lemma request_step_inv v s :
  shutter_inv s -> shutter_inv (handleMotor (setShutter v s)).
Proof.
  intros Hs. apply motion_ok_step_inv;
    [by apply request_motion_ok | by apply request_rest_inv].
Qed.

(** ** Refinement: the concrete operations implement the abstract machine *)

Lemma status_refines s :
  shutter_inv s -> (motorStatus s, coverStatus s) = Abstract.status (phase_of s).
Proof.
  unfold shutter_inv, phase_of, Abstract.status.
  destruct (motorDirection s); intros Hs; destruct_and?;
    [congruence.. | destruct_or!; destruct_and!; case_bool_decide; congruence].
Qed.

Lemma tick_refines s :
  motion_ok s -> phase_of (handleMotor s) = Abstract.tick (phase_of s).
Proof.
  unfold motion_ok. intros Hok.
  motor_cases s; unfold phase_of, Abstract.tick, OPEN_ANGLE, CLOSED_ANGLE in *; simpl;
    try match goal with H : motorDirection s = _ |- _ => rewrite H end;
    repeat case_bool_decide; shutter_solve.
Qed.

Lemma request_refines v s :
  shutter_inv s ->
  phase_of (setShutter v s) = Abstract.request v (currentSwitchState s) (phase_of s).
Proof.
  unfold setShutter, Abstract.request.
  destruct (currentSwitchState s); [|reflexivity]. simpl.
  unfold shutter_inv, phase_of. intros Hs.
  destruct v; repeat case_match; state_simpl; simplify_eq;
    destruct_and?; destruct_or?; destruct_and?;
    repeat case_bool_decide; simplify_eq; try congruence; try reflexivity.
Qed.

(** ** Motion over several loop iterations *)

(** One motor step of a moving shutter. *)
Lemma handleMotor_moving s :
  motion_ok s -> motorDirection s <> NONE ->
  let t := handleMotor s in
  currentAngle t = currentAngle s + dir_step (motorDirection s) /\
  targetAngle t = targetAngle s /\
  steps_left s - 1 = (if bool_decide (motorDirection t = NONE) then 0 else steps_left t) /\
  (if bool_decide (steps_left s = 1)
   then motorDirection t = NONE /\ motorStatus t = STOPPED /\
        coverStatus t = dir_goal (motorDirection s)
   else motorDirection t = motorDirection s /\ motorStatus t = RUNNING /\
        coverStatus t = NEITHER_OPEN_NOR_CLOSED) /\
  io t = Delay SERVO_DELAY :: ServoWrite (currentAngle t) :: io s /\
  motor_frame t = motor_frame s.
Proof.
  unfold motion_ok, steps_left. intros Hok Hnd. cbn zeta.
  motor_cases s; unfold dir_step, dir_goal, motor_frame; simpl;
    repeat case_bool_decide; shutter_solve.
Qed.

Lemma handleMotor_motion_ok s : motion_ok s -> motion_ok (handleMotor s).
Proof. unfold motion_ok. intros Hok. motor_cases s; shutter_solve. Qed.

Lemma steps_left_motion s : motion_ok s -> motorDirection s <> NONE -> 0 < steps_left s.
Proof. unfold motion_ok, steps_left. case_match; shutter_solve. Qed.

(** [k] motor steps before arrival: the shutter keeps its direction and
    moves [k] degrees, spending [k * SERVO_DELAY] ms. *)
Lemma motion_run (k : nat) s :
  motion_ok s -> motorDirection s <> NONE -> Z.of_nat k < steps_left s ->
  let t := (handleMotor ^^ k) s in
  motorDirection t = motorDirection s /\ targetAngle t = targetAngle s /\
  currentAngle t = currentAngle s + Z.of_nat k * dir_step (motorDirection s) /\
  steps_left t = steps_left s - Z.of_nat k /\ motion_ok t /\
  delayed (io t) = delayed (io s) + Z.of_nat k * SERVO_DELAY /\
  motor_frame t = motor_frame s /\
  (k <> 0%nat -> motorStatus t = RUNNING /\ coverStatus t = NEITHER_OPEN_NOR_CLOSED).
Proof.
  revert s. induction k as [|k IH]; intros s Hok Hd Hk; cbn zeta.
  { simpl. rewrite !Z.add_0_r, Z.sub_0_r. repeat split; auto; lia. }
  rewrite Nat.iter_succ_r.
  destruct (handleMotor_moving s Hok Hd) as (Ha & Ht & Hl & Hst & Hio & Hfr).
  rewrite bool_decide_eq_false_2 in Hst by lia. destruct Hst as (Hd' & Hm & Hc).
  rewrite bool_decide_eq_false_2 in Hl by congruence.
  destruct (IH (handleMotor s)) as (Hd2 & Ht2 & Ha2 & Hl2 & Hok2 & Hdl2 & Hfr2 & Hst2);
    [by apply handleMotor_motion_ok | congruence | lia |].
  rewrite Hd2, Ht2, Ha2, Hl2, Hdl2, Hfr2, Hio, Ha, Hd', Ht, Hfr. simpl delayed.
  unfold SERVO_DELAY in *. repeat split; auto; try lia.
  all: destruct k; [simpl; auto | apply Hst2; lia].
Qed.

(** Arrival: after exactly [steps_left s] steps the shutter is at rest at
    its target, the cover status names the end point, and the motor has
    spent [steps_left s * SERVO_DELAY] ms. *)
Lemma motion_arrive s :
  motion_ok s -> motorDirection s <> NONE ->
  let t := (handleMotor ^^ Z.to_nat (steps_left s)) s in
  motorDirection t = NONE /\ motorStatus t = STOPPED /\
  coverStatus t = dir_goal (motorDirection s) /\
  currentAngle t = targetAngle s /\ targetAngle t = targetAngle s /\
  delayed (io t) = delayed (io s) + steps_left s * SERVO_DELAY /\
  motor_frame t = motor_frame s.
Proof.
  intros Hok Hd. pose proof (steps_left_motion s Hok Hd) as Hpos.
  replace (Z.to_nat (steps_left s)) with (1 + Z.to_nat (steps_left s - 1))%nat by lia.
  rewrite iter_add.
  destruct (motion_run (Z.to_nat (steps_left s - 1)) s Hok Hd) as
      (Hd1 & Ht1 & Ha1 & Hl1 & Hok1 & Hdl1 & Hfr1 & _); [lia|].
  cbn zeta in *. set (u := (handleMotor ^^ _) s) in *. simpl Nat.iter.
  destruct (handleMotor_moving u Hok1 ltac:(congruence)) as (Ha & Ht & _ & Hst & Hio & Hfr).
  rewrite bool_decide_eq_true_2 in Hst by lia. destruct Hst as (Hd' & Hm & Hc).
  rewrite Hd', Hm, Hc, Ha, Ht, Hio, Hfr, Hd1, Ht1, Ha1, Hfr1. simpl delayed. rewrite Hdl1.
  revert Hok Hd Hl1. unfold motion_ok, steps_left, dir_step, SERVO_DELAY.
  destruct (motorDirection s); intros; repeat split; auto; try lia; congruence.
Qed.

(** The angles written to the servo during a motion: one per step, each
    one degree further in the direction of travel. *)
Lemma motion_writes (k : nat) s :
  motion_ok s -> motorDirection s <> NONE -> Z.of_nat k <= steps_left s ->
  servo_writes (io ((handleMotor ^^ k) s)) =
  servo_writes (io s) ++ map (fun i => currentAngle s + Z.of_nat i * dir_step (motorDirection s)) (seq 1 k).
Proof.
  intros Hok Hd. induction k as [|k IH]; intros Hk; [by rewrite app_nil_r|].
  rewrite Nat.iter_succ.
  destruct (motion_run k s Hok Hd) as (Hd1 & _ & Ha1 & _ & Hok1 & _); [lia|].
  cbn zeta in *. set (u := (handleMotor ^^ k) s) in *.
  destruct (handleMotor_moving u Hok1 ltac:(congruence)) as (Ha & _ & _ & _ & Hio & _).
  rewrite Hio. simpl servo_writes. rewrite IH by lia.
  rewrite seq_S, map_app, app_assoc, Ha, Ha1, Hd1. simpl. f_equal. f_equal. lia.
Qed.

(** After arrival further motor steps change nothing. *)
Lemma rest_stays (n : nat) s : motorDirection s = NONE -> (handleMotor ^^ n) s = s.
Proof. intros Hd. apply iter_fixpoint, handleMotor_rest, Hd. Qed.

(** A whole motion from any state where one is in progress: [n] steps
    before arrival keep it moving, [n >= steps_left s] steps end it. *)
Lemma travel (n : nat) s :
  motion_ok s -> motorDirection s <> NONE ->
  let t := (handleMotor ^^ n) s in
  ((0 < Z.of_nat n < steps_left s)%Z ->
     motorStatus t = RUNNING /\ coverStatus t = NEITHER_OPEN_NOR_CLOSED /\
     motorDirection t = motorDirection s /\
     currentAngle t = currentAngle s + Z.of_nat n * dir_step (motorDirection s)) /\
  (steps_left s <= Z.of_nat n ->
     motorStatus t = STOPPED /\ coverStatus t = dir_goal (motorDirection s) /\
     motorDirection t = NONE /\ currentAngle t = targetAngle s /\
     delayed (io t) = delayed (io s) + steps_left s * SERVO_DELAY).
Proof.
  intros Hok Hd. split.
  - intros Hn. destruct (motion_run n s Hok Hd) as (? & _ & ? & _ & _ & _ & _ & Hst); [lia|].
    destruct Hst; [lia|]. auto.
  - intros Hn. destruct (motion_arrive s Hok Hd) as (Hd' & ? & ? & ? & _ & ? & _).
    replace n with ((n - Z.to_nat (steps_left s)) + Z.to_nat (steps_left s))%nat by lia.
    rewrite iter_add, rest_stays by exact Hd'. auto.
Qed.

(** ** Properties of the shutter engine *)

Lemma rest_at_closed s :
  shutter_inv s -> coverStatus s = CLOSED ->
  motorDirection s = NONE /\ currentAngle s = CLOSED_ANGLE /\ targetAngle s = CLOSED_ANGLE.
Proof. unfold shutter_inv. case_match; shutter_solve. Qed.

Lemma rest_at_open s :
  shutter_inv s -> coverStatus s = OPEN ->
  motorDirection s = NONE /\ currentAngle s = OPEN_ANGLE /\ targetAngle s = OPEN_ANGLE.
Proof. unfold shutter_inv. case_match; shutter_solve. Qed.

(** A request at rest at the opposite end point starts a full travel. *)
Lemma request_from_rest v s :
  shutter_inv s -> currentSwitchState s = true ->
  (v = OPEN /\ coverStatus s = CLOSED \/ v = CLOSED /\ coverStatus s = OPEN) ->
  let u := setShutter v s in
  motion_ok u /\ motorDirection u <> NONE /\ dir_goal (motorDirection u) = v /\
  steps_left u = CLOSED_ANGLE - OPEN_ANGLE /\ currentAngle u = currentAngle s /\
  io u = io s.
Proof.
  intros Hs Hsw [[-> Hc] | [-> Hc]];
    [destruct (rest_at_closed s Hs Hc) as (Hd & Ha & Ht) | destruct (rest_at_open s Hs Hc) as (Hd & Ha & Ht)];
    unfold setShutter, motion_ok, steps_left; rewrite Hsw, Hc; repeat case_bool_decide; simpl;
    state_simpl; rewrite ?Ha; unfold OPEN_ANGLE, CLOSED_ANGLE in *; repeat split; try congruence; lia.
Qed.

(** C5: opening from rest closed, counting loop
    iterations from the one that receives the request: during the first
    269 iterations the motor runs, the cover reads "moving" and the angle
    is [CLOSED_ANGLE - n]; from iteration 270 on the cover is open, the
    motor stopped, the angle [OPEN_ANGLE], and exactly 270 steps of
    [SERVO_DELAY] ms were spent. *)
Theorem open_from_closed (n : nat) s :
  shutter_inv s -> coverStatus s = CLOSED -> currentSwitchState s = true ->
  let t := (handleMotor ^^ n) (setShutter OPEN s) in
  ((0 < n < 270)%nat ->
     motorStatus t = RUNNING /\ coverStatus t = NEITHER_OPEN_NOR_CLOSED /\
     currentAngle t = CLOSED_ANGLE - Z.of_nat n) /\
  ((270 <= n)%nat ->
     motorStatus t = STOPPED /\ coverStatus t = OPEN /\ motorDirection t = NONE /\
     currentAngle t = OPEN_ANGLE /\ delayed (io t) = delayed (io s) + 270 * SERVO_DELAY).
Proof.
  intros Hs Hc Hsw.
  destruct (request_from_rest OPEN s Hs Hsw (or_introl (conj eq_refl Hc)))
    as (Hok & Hd & Hg & Hl & Ha & Hio).
  destruct (rest_at_closed s Hs Hc) as (_ & Ha0 & _).
  destruct (travel n _ Hok Hd) as [Hrun Hend]. cbn zeta.
  unfold setShutter in *. rewrite Hsw, Hc in *. state_simpl.
  rewrite Hl in *. unfold OPEN_ANGLE, CLOSED_ANGLE in *. simpl in *. split.
  - intros Hn. destruct Hrun as (? & ? & ? & ->); [lia|]. repeat split; auto; lia.
  - intros Hn. destruct Hend as (? & Hgoal & ? & -> & ->); [lia|]. repeat split; auto.
Qed.

(** C25: the angles an opening from rest closed writes to the servo,
    in order, are [269, 268, ..., 0], one per loop iteration; 89 of them
    lie above 180, the largest angle the Servo library accepts, so
    during the first 89 iterations the command does not move the
    servo. *)
Theorem open_servo_writes s :
  shutter_inv s -> coverStatus s = CLOSED -> currentSwitchState s = true ->
  let w := map (fun i => CLOSED_ANGLE - Z.of_nat i) (seq 1 270) in
  servo_writes (io ((handleMotor ^^ 270) (setShutter OPEN s))) = servo_writes (io s) ++ w /\
  length (filter (fun a => bool_decide (180 < a)) w) = 89%nat.
Proof.
  intros Hs Hc Hsw. cbn zeta. split; [|by_eval].
  destruct (rest_at_closed s Hs Hc) as (_ & Ha & _).
  destruct (request_from_rest OPEN s Hs Hsw (or_introl (conj eq_refl Hc))) as (Hok & Hd & Hg & Hl & Ha' & Hio).
  rewrite motion_writes by (auto; rewrite Hl; unfold CLOSED_ANGLE, OPEN_ANGLE; lia).
  rewrite Hio, Ha', Ha. f_equal. apply map_ext. intros i.
  destruct (motorDirection (setShutter OPEN s)); simpl in Hg; try discriminate; simpl; lia.
Qed.

(** C17: closing from rest open, symmetrically: the
    angle climbs one degree per loop iteration, the cover reads "moving"
    for 269 iterations, and from iteration 270 on it is closed at
    [CLOSED_ANGLE] with the motor stopped. *)
Theorem close_from_open (n : nat) s :
  shutter_inv s -> coverStatus s = OPEN -> currentSwitchState s = true ->
  let t := (handleMotor ^^ n) (setShutter CLOSED s) in
  ((0 < n < 270)%nat ->
     motorStatus t = RUNNING /\ coverStatus t = NEITHER_OPEN_NOR_CLOSED /\
     currentAngle t = OPEN_ANGLE + Z.of_nat n) /\
  ((270 <= n)%nat ->
     motorStatus t = STOPPED /\ coverStatus t = CLOSED /\ motorDirection t = NONE /\
     currentAngle t = CLOSED_ANGLE /\ delayed (io t) = delayed (io s) + 270 * SERVO_DELAY).
Proof.
  intros Hs Hc Hsw.
  destruct (request_from_rest CLOSED s Hs Hsw (or_intror (conj eq_refl Hc)))
    as (Hok & Hd & Hg & Hl & Ha & Hio).
  destruct (rest_at_open s Hs Hc) as (_ & Ha0 & _).
  destruct (travel n _ Hok Hd) as [Hrun Hend]. cbn zeta.
  unfold setShutter in *. rewrite Hsw, Hc in *. state_simpl.
  rewrite Hl in *. unfold OPEN_ANGLE, CLOSED_ANGLE in *. simpl in *. split.
  - intros Hn. destruct Hrun as (? & ? & ? & ->); [lia|]. repeat split; auto; lia.
  - intros Hn. destruct Hend as (? & Hgoal & ? & -> & ->); [lia|]. repeat split; auto.
Qed.

(** C7: every motion ends: from any state of the
    invariant, at most [CLOSED_ANGLE - OPEN_ANGLE] = 270 motor steps
    bring the shutter to rest, and it stays at rest afterwards. *)
Theorem motion_terminates s :
  shutter_inv s ->
  0 <= steps_left s <= CLOSED_ANGLE - OPEN_ANGLE /\
  forall n : nat, steps_left s <= Z.of_nat n ->
    motorDirection ((handleMotor ^^ n) s) = NONE /\
    motorStatus ((handleMotor ^^ n) s) = STOPPED.
Proof.
  intros Hs. destruct (motorDirection s) eqn:Hd.
  3: { unfold steps_left, shutter_inv in *. rewrite Hd in *.
       split; [unfold OPEN_ANGLE, CLOSED_ANGLE; lia|].
       intros n _. rewrite rest_stays by exact Hd. split; [exact Hd | tauto]. }
  all: assert (Hok : motion_ok s) by (by apply inv_motion_ok).
  all: split; [revert Hs; unfold shutter_inv, steps_left; rewrite Hd; shutter_solve|].
  all: intros n Hn; destruct (travel n s Hok ltac:(congruence)) as [_ Hend].
  all: destruct Hend as (? & _ & ? & _); auto.
Qed.

(** C14: a close request while opening reverses
    the travel at once: the next step moves the angle one degree back
    towards [CLOSED_ANGLE], never past it, and the shutter is then closing
    or, if that degree reached [CLOSED_ANGLE], closed. *)
Theorem reverse_while_opening s :
  shutter_inv s -> motorDirection s = OPENING -> currentSwitchState s = true ->
  let t := handleMotor (setShutter CLOSED s) in
  currentAngle t = currentAngle s + 1 /\ targetAngle t = CLOSED_ANGLE /\
  currentAngle t <= CLOSED_ANGLE /\
  (motorDirection t = CLOSING \/ motorDirection t = NONE /\ coverStatus t = CLOSED).
Proof.
  intros Hs Hd Hsw. unfold shutter_inv in Hs. rewrite Hd in Hs.
  destruct Hs as (Hm & Hc & Ht & Ha).
  assert (Hu : setShutter CLOSED s = set_targetAngle CLOSED_ANGLE (set_motorDirection CLOSING s)).
  { unfold setShutter. rewrite Hsw, Hc. reflexivity. }
  cbn zeta. rewrite Hu.
  rewrite handleMotor_closing
    by (state_simpl; first [reflexivity | unfold OPEN_ANGLE, CLOSED_ANGLE in *; lia]).
  unfold arrive; case_bool_decide; state_simpl; shutter_solve.
Qed.

(** C2: the scattered conditionals of [setShutter]
    and [handleMotor] implement the four-state machine of the spec: from
    every state of the invariant, one loop iteration's request and motor
    step move the abstract phase by [Abstract.request] then
    [Abstract.tick], and the motor and cover status reported by the [S]
    command are those of the abstract phase. *)
Theorem shutter_refinement v s :
  shutter_inv s ->
  let t := handleMotor (setShutter v s) in
  phase_of t = Abstract.tick (Abstract.request v (currentSwitchState s) (phase_of s)) /\
  (motorStatus t, coverStatus t) = Abstract.status (phase_of t).
Proof.
  intros Hs. split.
  - rewrite tick_refines by (by apply request_motion_ok).
    by rewrite request_refines.
  - by apply status_refines, request_step_inv.
Qed.

(** ** Witnesses: the theorems at concrete states *)

(** At rest closed with the switch high. *)
Definition closed_ready : State := set_currentSwitchState true (globals_init FLIP_FLAT).

(** At rest open with the switch high. *)
Definition open_ready : State :=
  set_targetAngle OPEN_ANGLE (set_currentAngle OPEN_ANGLE (set_coverStatus OPEN closed_ready)).

(** Opening, at 100 degrees. *)
Definition opening_at_100 : State :=
  set_currentAngle 100 (set_targetAngle OPEN_ANGLE (set_motorDirection OPENING
    (set_coverStatus NEITHER_OPEN_NOR_CLOSED (set_motorStatus RUNNING closed_ready)))).

Lemma open_from_closed_witness :
  let t := (handleMotor ^^ 300) (setShutter OPEN closed_ready) in
  ((0 < 300 < 270)%nat ->
     motorStatus t = RUNNING /\ coverStatus t = NEITHER_OPEN_NOR_CLOSED /\
     currentAngle t = CLOSED_ANGLE - Z.of_nat 300) /\
  ((270 <= 300)%nat ->
     motorStatus t = STOPPED /\ coverStatus t = OPEN /\ motorDirection t = NONE /\
     currentAngle t = OPEN_ANGLE /\ delayed (io t) = delayed (io closed_ready) + 270 * SERVO_DELAY).
Proof. apply (open_from_closed 300 closed_ready); [decide_true | reflexivity | reflexivity]. Defined.

Lemma close_from_open_witness :
  let t := (handleMotor ^^ 100) (setShutter CLOSED open_ready) in
  ((0 < 100 < 270)%nat ->
     motorStatus t = RUNNING /\ coverStatus t = NEITHER_OPEN_NOR_CLOSED /\
     currentAngle t = OPEN_ANGLE + Z.of_nat 100) /\
  ((270 <= 100)%nat ->
     motorStatus t = STOPPED /\ coverStatus t = CLOSED /\ motorDirection t = NONE /\
     currentAngle t = CLOSED_ANGLE /\ delayed (io t) = delayed (io open_ready) + 270 * SERVO_DELAY).
Proof. apply (close_from_open 100 open_ready); [decide_true | reflexivity | reflexivity]. Defined.

Lemma motion_terminates_witness :
  0 <= steps_left opening_at_100 <= CLOSED_ANGLE - OPEN_ANGLE /\
  forall n : nat, steps_left opening_at_100 <= Z.of_nat n ->
    motorDirection ((handleMotor ^^ n) opening_at_100) = NONE /\
    motorStatus ((handleMotor ^^ n) opening_at_100) = STOPPED.
Proof. apply (motion_terminates opening_at_100). decide_true. Defined.

Lemma reverse_while_opening_witness :
  let t := handleMotor (setShutter CLOSED opening_at_100) in
  currentAngle t = currentAngle opening_at_100 + 1 /\ targetAngle t = CLOSED_ANGLE /\
  currentAngle t <= CLOSED_ANGLE /\
  (motorDirection t = CLOSING \/ motorDirection t = NONE /\ coverStatus t = CLOSED).
Proof. apply (reverse_while_opening opening_at_100); [decide_true | reflexivity | reflexivity]. Defined.

Lemma shutter_refinement_witness :
  let t := handleMotor (setShutter OPEN closed_ready) in
  phase_of t = Abstract.tick (Abstract.request OPEN (currentSwitchState closed_ready) (phase_of closed_ready)) /\
  (motorStatus t, coverStatus t) = Abstract.status (phase_of t).
Proof. apply (shutter_refinement OPEN closed_ready). decide_true. Defined.

Lemma open_servo_writes_witness :
  let w := map (fun i => CLOSED_ANGLE - Z.of_nat i) (seq 1 270) in
  servo_writes (io ((handleMotor ^^ 270) (setShutter OPEN closed_ready))) =
  servo_writes (io closed_ready) ++ w /\
  length (filter (fun a => bool_decide (180 < a)) w) = 89%nat.
Proof. apply open_servo_writes; [decide_true | reflexivity | reflexivity]. Defined.
