(* ===== verification/Text.v ===== *)
(** * Text: the C string functions the dispatcher calls

    [handleSerial] parses the payload with [atoi(data)] (main.cpp 196)
    and formats every reply with [sprintf] and the conversions [%d] and
    [%03d] (124-241).  Characters are [ascii]; a C string is the list of
    its characters, the terminating NUL included when there is one.
    [atoi] follows the C standard (leading white space, an optional sign,
    decimal digits up to the first non-digit) over unbounded integers; the
    round trip [atoi (%03d n) = n] and the length of the conversions are
    proved here. *)

From S2P Require Import Prelude.
Open Scope Z_scope.

(** ** Characters *)

Definition NUL : ascii := "000".
Definition LF : ascii := "010".
Definition CR : ascii := "013".

Definition char_code (c : ascii) : Z := Z.of_nat (nat_of_ascii c).

(** [isspace] of the C locale: space, and the codes 9 to 13. *)
Definition isspace (c : ascii) : bool :=
  bool_decide (char_code c = 32) || bool_decide (9 <= char_code c <= 13).

Definition isdigit (c : ascii) : bool := bool_decide (48 <= char_code c <= 57).

Definition digit_val (c : ascii) : Z := char_code c - 48.

Definition digit_char (d : Z) : ascii := ascii_of_nat (Z.to_nat (48 + d)).

(** ** [atoi] *)

Fixpoint skip_spaces (l : list ascii) : list ascii :=
  match l with
  | c :: l' => if isspace c then skip_spaces l' else l
  | [] => []
  end.

(** The digits read from the front of [l], accumulated on [acc]. *)
Fixpoint digits_acc (acc : Z) (l : list ascii) : Z :=
  match l with
  | c :: l' => if isdigit c then digits_acc (10 * acc + digit_val c) l' else acc
  | [] => acc
  end.

Definition atoi (l : list ascii) : Z :=
  match skip_spaces l with
  | c :: r =>
      if bool_decide (c = "-"%char) then - digits_acc 0 r
      else if bool_decide (c = "+"%char) then digits_acc 0 r
      else digits_acc 0 (c :: r)
  | [] => 0
  end.

(** ** [sprintf] conversions *)

(** Decimal digits of [n >= 0]; the fuel is the bit length of [n], which
    bounds its number of decimal digits. *)
Fixpoint utoa_fuel (fuel : nat) (n : Z) : list ascii :=
  match fuel with
  | O => []
  | S f => if n <? 10 then [digit_char n] else utoa_fuel f (n / 10) ++ [digit_char (n mod 10)]
  end.

Definition utoa (n : Z) : list ascii := utoa_fuel (S (Z.to_nat (Z.log2 n))) n.

(** [%d] *)
Definition fmt_d (n : Z) : list ascii :=
  if n <? 0 then "-"%char :: utoa (- n) else utoa n.

Definition pad_zeros (w : nat) (l : list ascii) : list ascii :=
  repeat "0"%char (w - length l) ++ l.

(** [%0wd]: at least [w] characters, zeros after the sign. *)
Definition fmt_0d (w : nat) (n : Z) : list ascii :=
  if n <? 0 then "-"%char :: pad_zeros (w - 1) (utoa (- n)) else pad_zeros w (utoa n).

(** ** Digits *)

Lemma digit_char_isdigit d : 0 <= d < 10 -> isdigit (digit_char d) = true.
Proof.
  intros Hd. unfold isdigit, char_code, digit_char.
  rewrite nat_ascii_embedding by lia. apply bool_decide_eq_true_2. lia.
Qed.

Lemma digit_char_val d : 0 <= d < 10 -> digit_val (digit_char d) = d.
Proof.
  intros Hd. unfold digit_val, char_code, digit_char.
  rewrite nat_ascii_embedding by lia. lia.
Qed.

Lemma digits_acc_app acc l1 l2 :
  Forall (fun c => isdigit c = true) l1 ->
  digits_acc acc (l1 ++ l2) = digits_acc (digits_acc acc l1) l2.
Proof.
  intros Hall. revert acc. induction Hall as [|c l Hc _ IH]; intros acc; [done|].
  simpl. rewrite Hc. apply IH.
Qed.

Lemma utoa_fuel_digits f n :
  Forall (fun c => isdigit c = true) (utoa_fuel f n) \/ n < 0.
Proof.
  destruct (Z_lt_ge_dec n 0); [by right|left].
  revert n g. induction f as [|f IH]; intros n Hn; simpl; [constructor|].
  destruct (Z.ltb_spec n 10).
  - constructor; [apply digit_char_isdigit; lia | constructor].
  - apply Forall_app. split.
    + apply IH. apply Z.le_ge, Z.div_pos; lia.
    + constructor; [apply digit_char_isdigit, Z.mod_pos_bound; lia | constructor].
Qed.

Lemma utoa_digits n : 0 <= n -> Forall (fun c => isdigit c = true) (utoa n).
Proof. intros Hn. destruct (utoa_fuel_digits (S (Z.to_nat (Z.log2 n))) n); [done | lia]. Qed.

(** With enough fuel the digits read back as the number. *)
Lemma utoa_fuel_value f n acc :
  0 <= n < 2 ^ Z.of_nat f ->
  digits_acc acc (utoa_fuel f n) = acc * 10 ^ Z.of_nat (length (utoa_fuel f n)) + n.
Proof.
  revert n acc. induction f as [|f IH]; intros n acc Hn; [simpl in *; lia|].
  simpl utoa_fuel. destruct (Z.ltb_spec n 10).
  - simpl. rewrite digit_char_isdigit, digit_char_val by lia. simpl. lia.
  - assert (Hq : 0 <= n / 10 < 2 ^ Z.of_nat f).
    { split; [apply Z.div_pos; lia|].
      rewrite Nat2Z.inj_succ, Z.pow_succ_r in Hn by lia.
      apply Z.div_lt_upper_bound; lia. }
    rewrite digits_acc_app by (destruct (utoa_fuel_digits f (n / 10)); [done | lia]).
    rewrite IH by exact Hq. simpl.
    rewrite digit_char_isdigit, digit_char_val by (apply Z.mod_pos_bound; lia).
    rewrite length_app, Nat2Z.inj_add. simpl. rewrite Z.pow_add_r by lia.
    pose proof (Z.div_mod n 10). lia.
Qed.

Lemma utoa_value n : 0 <= n -> digits_acc 0 (utoa n) = n.
Proof.
  intros Hn. unfold utoa. rewrite utoa_fuel_value; [lia|].
  split; [lia|]. destruct (Z.eq_dec n 0) as [->|]; [simpl; lia|].
  rewrite Nat2Z.inj_succ, Z2Nat.id by (apply Z.log2_nonneg).
  apply Z.log2_spec. lia.
Qed.

Lemma digits_acc_zeros acc k l :
  digits_acc acc (repeat "0"%char k ++ l) = digits_acc (acc * 10 ^ Z.of_nat k) l.
Proof.
  revert acc. induction k as [|k IH]; intros acc; simpl; [f_equal; lia|].
  rewrite IH. f_equal. unfold digit_val, char_code.
  change (Z.of_nat (nat_of_ascii "0")) with 48.
  rewrite Nat2Z.inj_succ, Z.pow_succ_r by lia. lia.
Qed.

Lemma digits_acc_stop acc c l : isdigit c = false -> digits_acc acc (c :: l) = acc.
Proof. intros Hc. simpl. by rewrite Hc. Qed.

Lemma skip_spaces_digit c l : isdigit c = true -> skip_spaces (c :: l) = c :: l.
Proof.
  unfold isdigit. intros Hc. cbn [skip_spaces]. unfold isspace.
  apply bool_decide_eq_true_1 in Hc.
  rewrite !bool_decide_eq_false_2 by lia. reflexivity.
Qed.

Lemma isdigit_sign c : isdigit c = true -> c <> "-"%char /\ c <> "+"%char.
Proof. intros Hc. split; intros ->; discriminate. Qed.

(** A string that starts with a digit is read as its digits. *)
Lemma atoi_digits c l : isdigit c = true -> atoi (c :: l) = digits_acc 0 (c :: l).
Proof.
  intros Hc. unfold atoi. rewrite skip_spaces_digit by exact Hc.
  destruct (isdigit_sign c Hc).
  rewrite !bool_decide_eq_false_2 by assumption. reflexivity.
Qed.

Lemma utoa_fuel_nonempty f n : utoa_fuel (S f) n <> [].
Proof. simpl. destruct (n <? 10); [discriminate|]. intros H. by apply app_eq_nil in H as [_ ?]. Qed.

Lemma pad_zeros_digits w l :
  Forall (fun c => isdigit c = true) l -> Forall (fun c => isdigit c = true) (pad_zeros w l).
Proof.
  intros Hl. apply Forall_app. split; [|exact Hl].
  apply Forall_forall. intros x Hx. apply list_elem_of_In, repeat_spec in Hx. by subst.
Qed.

(** Parsing stops at the first character that is not a digit. *)
Lemma digits_acc_digits_then acc l rest :
  Forall (fun c => isdigit c = true) l ->
  (forall c r, rest = c :: r -> isdigit c = false) ->
  digits_acc acc (l ++ rest) = digits_acc acc l.
Proof.
  intros Hl Hr. rewrite digits_acc_app by exact Hl.
  destruct rest as [|c r]; [reflexivity|]. apply digits_acc_stop, (Hr c r eq_refl).
Qed.

(** ** Bounds *)

Lemma digits_acc_bound acc l :
  0 <= acc -> acc <= digits_acc acc l < (acc + 1) * 10 ^ Z.of_nat (length l).
Proof.
  revert acc. induction l as [|c l IH]; intros acc Hacc; simpl; [lia|].
  destruct (isdigit c) eqn:Hc.
  - unfold isdigit, digit_val in *. apply bool_decide_eq_true_1 in Hc.
    destruct (IH (10 * acc + (char_code c - 48))) as [H1 H2]; [lia|].
    rewrite Nat2Z.inj_succ, Z.pow_succ_r by lia. nia.
  - rewrite Nat2Z.inj_succ, Z.pow_succ_r by lia.
    pose proof (Z.pow_pos_nonneg 10 (Z.of_nat (length l))). nia.
Qed.

Lemma skip_spaces_length l : (length (skip_spaces l) <= length l)%nat.
Proof. induction l as [|c l IH]; simpl; [lia|]. destruct (isspace c); simpl; lia. Qed.

Lemma skip_spaces_suffix l : exists k, skip_spaces l = drop k l.
Proof.
  induction l as [|c l [k IH]]; [by exists 0%nat|]. simpl.
  destruct (isspace c); [exists (S k); exact IH | exists 0%nat; reflexivity].
Qed.

Lemma skip_spaces_nul l1 l2 : skip_spaces (l1 ++ NUL :: l2) = skip_spaces l1 ++ NUL :: l2.
Proof. induction l1 as [|c l1 IH]; [reflexivity|]. simpl. by destruct (isspace c). Qed.

Lemma digits_acc_nul acc l1 l2 : digits_acc acc (l1 ++ NUL :: l2) = digits_acc acc l1.
Proof.
  revert acc. induction l1 as [|c l1 IH]; intros acc; [reflexivity|].
  simpl. by destruct (isdigit c).
Qed.

(** [atoi] reads a C string: nothing after its terminating NUL matters. *)
Lemma atoi_cstring l1 l2 : atoi (l1 ++ NUL :: l2) = atoi l1.
Proof.
  unfold atoi. rewrite skip_spaces_nul.
  destruct (skip_spaces l1) as [|c r]; simpl; [reflexivity|].
  repeat case_bool_decide; rewrite ?digits_acc_nul; reflexivity.
Qed.

(** The [%0wd] conversion of [sprintf] and [atoi] are
    inverse on non-negative numbers: reading back a zero-padded reply
    field, followed by anything that does not start with a digit (the
    ['\n'] of a reply, or the end of the string), gives the number. *)
Lemma atoi_fmt_0d (w : nat) n rest :
  0 <= n -> (forall c r, rest = c :: r -> isdigit c = false) ->
  atoi (fmt_0d w n ++ rest) = n.
Proof.
  intros Hn Hrest. unfold fmt_0d. rewrite (proj2 (Z.ltb_ge n 0)) by lia.
  pose proof (pad_zeros_digits w _ (utoa_digits n Hn)) as Hd.
  destruct (pad_zeros w (utoa n)) as [|c l] eqn:E.
  - exfalso. unfold pad_zeros, utoa in E. apply app_eq_nil in E as [_ E].
    by apply utoa_fuel_nonempty in E.
  - simpl. rewrite atoi_digits by (by inversion Hd).
    rewrite app_comm_cons, <- E, digits_acc_digits_then by (rewrite ?E; assumption).
    unfold pad_zeros. rewrite digits_acc_zeros, Z.mul_0_l. by apply utoa_value.
Qed.

(** [atoi] of [n] characters has at most [n] digits, or a sign and [n - 1] digits. *)
Lemma atoi_range l :
  - 10 ^ Z.of_nat (length l - 1) < atoi l < 10 ^ Z.of_nat (length l).
Proof.
  unfold atoi. destruct (skip_spaces_suffix l) as [k Hk]. rewrite Hk.
  assert (Hmono : forall a b : nat, (a <= b)%nat -> 10 ^ Z.of_nat a <= 10 ^ Z.of_nat b)
    by (intros; apply Z.pow_le_mono_r; lia).
  pose proof (length_drop l k) as Hlen.
  destruct (drop k l) as [|c r]; cbn [length] in *.
  - pose proof (Z.pow_pos_nonneg 10 (Z.of_nat (length l - 1)) ltac:(lia) ltac:(lia)).
    pose proof (Z.pow_pos_nonneg 10 (Z.of_nat (length l)) ltac:(lia) ltac:(lia)). simpl. lia.
  - pose proof (digits_acc_bound 0 r ltac:(lia)) as Hr.
    pose proof (digits_acc_bound 0 (c :: r) ltac:(lia)) as Hcr. simpl length in Hcr.
    pose proof (Hmono (length r) (length l - 1)%nat ltac:(lia)).
    pose proof (Hmono (length r) (length l)%nat ltac:(lia)).
    pose proof (Hmono (S (length r)) (length l)%nat ltac:(lia)).
    pose proof (Z.pow_pos_nonneg 10 (Z.of_nat (length l - 1)) ltac:(lia) ltac:(lia)).
    repeat case_bool_decide; lia.
Qed.

(** A three-character payload, as the dispatcher passes to [atoi]. *)
Lemma atoi_payload p1 p2 p3 : -99 <= atoi [p1; p2; p3] <= 999.
Proof. pose proof (atoi_range [p1; p2; p3]). simpl in *. lia. Qed.
