(* ===== verification/SoftFloat.v ===== *)
(** * SoftFloat: binary floating-point arithmetic on integers

    The brightness curve of main.cpp 196-197 computes in [double]:
    [(double)(atoi(data) - 3)], the literal [0.00394], two products and a
    cast back to [int].  A float is a mantissa and an exponent, value
    [fmant * 2 ^ fexp]; every operation computes its exact result as a
    fraction and rounds it to the nearest float of [p] bits, ties to even
    (IEEE 754 default rounding).  [binary32] is the [double] of AVR boards
    (the Arduino Nano the sketch names), [binary64] the [double] of other
    targets.  The exponent range is not bounded: the values of the curve
    lie between [2^-9] and [2^12], far inside both formats' normal range,
    so neither underflow nor overflow occurs.  The cast [(int)] truncates
    towards zero ([Z.quot]). *)

From S2P Require Import Prelude.
Open Scope Z_scope.

Record float := mkFloat { fmant : Z; fexp : Z }.

(** Precision in bits, hidden bit included. *)
Definition binary32 : Z := 24.
Definition binary64 : Z := 53.

(** [num / den] rounded to the nearest integer, ties to even. *)
Definition rne_div (num den : Z) : Z :=
  let q := num / den in
  let r := num mod den in
  if bool_decide (den < 2 * r) || (bool_decide (2 * r = den) && Z.odd q) then q + 1 else q.

(** [a / (d * 2^e)] as a fraction. *)
Definition scaled (a d e : Z) : Z * Z :=
  if bool_decide (0 <= e) then (a, d * 2 ^ e) else (a * 2 ^ (- e), d).

(** The exponent that puts [a / d] (both positive) in [2^(p-1), 2^p). *)
Definition round_exp (p a d : Z) : Z :=
  let e0 := Z.log2 a - Z.log2 d - p + 1 in
  let '(n0, d0) := scaled a d e0 in
  if bool_decide (n0 / d0 < 2 ^ (p - 1)) then e0 - 1 else e0.

(** Rounding of [a / d > 0] to [p] bits. *)
Definition round_pos (p a d : Z) : float :=
  let e := round_exp p a d in
  let '(n, dd) := scaled a d e in
  mkFloat (rne_div n dd) e.

(** Rounding of [n / d], [d > 0], symmetric in the sign. *)
Definition round (p n d : Z) : float :=
  if bool_decide (n = 0) then mkFloat 0 0
  else let f := round_pos p (Z.abs n) d in
       if bool_decide (n < 0) then mkFloat (- fmant f) (fexp f) else f.

(** The exact value of a float as a fraction with a positive denominator. *)
Definition num_den (x : float) : Z * Z :=
  if bool_decide (0 <= fexp x) then (fmant x * 2 ^ fexp x, 1) else (fmant x, 2 ^ (- fexp x)).

(** Conversion [(double) z] of an integer. *)
Definition of_Z (p z : Z) : float := round p z 1.

(** A decimal literal [m * 10^-k], rounded once as the compiler does. *)
Definition of_decimal (p m k : Z) : float := round p m (10 ^ k).

(** Product, correctly rounded. *)
Definition fmul (p : Z) (x y : float) : float :=
  let '(nx, dx) := num_den x in
  let '(ny, dy) := num_den y in
  round p (nx * ny) (dx * dy).

(** The cast [(int) x]: truncation towards zero. *)
Definition to_int (x : float) : Z :=
  let '(n, d) := num_den x in Z.quot n d.

(** ** Properties of the rounding *)

(** Rounding to nearest is within half a unit of the exact quotient. *)
Lemma rne_div_half num den :
  0 < den -> 2 * Z.abs (num - den * rne_div num den) <= den.
Proof.
  intros Hd. unfold rne_div.
  pose proof (Z.div_mod num den ltac:(lia)) as Hdm.
  pose proof (Z.mod_pos_bound num den Hd) as Hm.
  destruct (bool_decide (den < 2 * (num mod den)) || _) eqn:Hc.
  - apply orb_true_iff in Hc as [Hc|Hc].
    + apply bool_decide_eq_true_1 in Hc. lia.
    + apply andb_true_iff in Hc as [Hc _]. apply bool_decide_eq_true_1 in Hc. lia.
  - apply orb_false_iff in Hc as [Hc _]. apply bool_decide_eq_false_1 in Hc. lia.
Qed.

Lemma scaled_den_pos a d e : 0 < d -> 0 < snd (scaled a d e).
Proof.
  intros Hd. unfold scaled. case_bool_decide; simpl; [|lia].
  pose proof (Z.pow_pos_nonneg 2 e). lia.
Qed.

(** Rounding a positive fraction [a / d] gives
    the float [m * 2^e] whose mantissa is the quotient [a / (d * 2^e)]
    rounded to nearest: the error is at most half a unit in the last
    place, [2 * |a / (d 2^e) - m| <= 1]. *)
Lemma round_pos_half_ulp p a d :
  0 < d ->
  let f := round_pos p a d in
  let '(n, dd) := scaled a d (fexp f) in
  2 * Z.abs (n - dd * fmant f) <= dd.
Proof.
  intros Hd. unfold round_pos.
  pose proof (scaled_den_pos a d (round_exp p a d) Hd) as Hpos.
  destruct (scaled a d (round_exp p a d)) as [n dd] eqn:E. simpl in *.
  rewrite E. by apply rne_div_half.
Qed.
