(* ===== verification/Brightness.v ===== *)
(** * Brightness: the perceptual curve of the [B] command, main.cpp 196-197

<<
    double db = (double) (atoi(data) - 3);
    brightness = constrain((int) (0.00394 * db * db), 0, 255);
>>

    [brightness_curve p x] computes it from the integer [x = atoi(data)]
    with [p]-bit floating-point arithmetic ([SoftFloat]); the product is
    [(0.00394 * db) * db], as C associates it.  The theorems show that on
    every value a three-character payload can carry ([-99 .. 999]) the
    result does not depend on the precision and equals an integer
    formula, and describe its range and the duty levels it can set. *)

From S2P Require Import Prelude SoftFloat.
Open Scope Z_scope.

(** The Arduino macro [constrain(amt, low, high)]. *)
Definition constrain (amt low high : Z) : Z :=
  if amt <? low then low else if amt >? high then high else amt.

Definition brightness_curve (p : Z) (x : Z) : Z :=
  let db := of_Z p (x - 3) in
  constrain (to_int (fmul p (fmul p (of_decimal p 394 5) db) db)) 0 255.

(** The reference: [floor(394 (x - 3)^2 / 100000)], clamped to 255. *)
Definition brightness_ref (x : Z) : Z :=
  Z.min 255 (394 * (x - 3) * (x - 3) / 100000).

(** ** Checks over the payload range, by evaluation *)

Definition curve_matches (p : Z) (x : Z) : bool :=
  bool_decide (brightness_curve p x = brightness_ref x).

Lemma curve_matches_32 : Z_forall_in (-99) 1099 (curve_matches binary32) = true.
Proof. vm_compute. reflexivity. Qed.

Lemma curve_matches_64 : Z_forall_in (-99) 1099 (curve_matches binary64) = true.
Proof. vm_compute. reflexivity. Qed.

(** On the payload range the curve equals the integer formula. *)
Lemma curve_exact p x :
  p = binary32 \/ p = binary64 -> -99 <= x <= 999 ->
  brightness_curve p x = brightness_ref x.
Proof.
  intros Hp Hx.
  assert (H : curve_matches p x = true).
  { destruct Hp as [->| ->];
      [apply (Z_forall_in_spec _ _ _ curve_matches_32) | apply (Z_forall_in_spec _ _ _ curve_matches_64)];
      lia. }
  unfold curve_matches in H. by apply bool_decide_eq_true_1 in H.
Qed.

(** C6: for every value [x] of [atoi] on a
    three-character payload, the floating-point curve of the firmware,
    computed in binary32 (AVR [double]) and in binary64 alike, equals the
    integer formula [min 255 (394 (x-3)^2 / 100000)]: no rounding of the
    literal [0.00394] or of the two products ever moves the truncated
    result. *)
Theorem brightness_curve_exact x :
  -99 <= x <= 999 ->
  brightness_curve binary32 x = brightness_ref x /\ brightness_curve binary64 x = brightness_ref x.
Proof. intros Hx. split; apply curve_exact; auto. Qed.

Lemma brightness_ref_range x : 0 <= brightness_ref x <= 255.
Proof.
  unfold brightness_ref. split; [|lia].
  pose proof (Z.square_nonneg (x - 3)).
  apply Z.min_glb; [lia|]. apply Z.div_pos; lia.
Qed.

(** The stored brightness always fits the 8-bit PWM duty cycle. *)
Lemma brightness_curve_range p x : 0 <= brightness_curve p x <= 255.
Proof.
  unfold brightness_curve, constrain.
  destruct (_ <? 0) eqn:H1; [lia|]. destruct (_ >? 255) eqn:H2; lia.
Qed.


(** C18: on the documented payloads [000 .. 255]
    the stored brightness never exceeds 250: the payload [255] gives 250,
    and the clamp to 255 is only reached by payloads above [257]. *)
Theorem brightness_payload_max p x :
  p = binary32 \/ p = binary64 -> 0 <= x <= 255 ->
  0 <= brightness_curve p x <= 250 /\ brightness_curve p 255 = 250 /\
  brightness_curve p 258 = 255.
Proof.
  intros Hp Hx. rewrite !curve_exact by (auto; lia).
  split; [|split; vm_compute; reflexivity].
  split; [apply brightness_ref_range|].
  transitivity (brightness_ref 255); [|vm_compute; discriminate].
  unfold brightness_ref. apply Z.min_le_compat_l, Z.div_le_mono; nia.
Qed.

(** Whether the level [v] is the integer curve of some payload [3 + k], [k < 138]. *)
Definition reaches_ref (v : Z) : bool :=
  existsb (fun k => bool_decide (brightness_ref (3 + Z.of_nat k) = v)) (seq 0 138).

Lemma ref_levels_low : Z_forall_in 0 74 reaches_ref = true.
Proof. vm_compute. reflexivity. Qed.

Lemma ref_skips_74 : Z_forall_in (-99) 1099 (fun x => negb (bool_decide (brightness_ref x = 74))) = true.
Proof. vm_compute. reflexivity. Qed.

Lemma ref_monotone x y : 3 <= x -> x <= y -> brightness_ref x <= brightness_ref y.
Proof. intros Hx Hxy. unfold brightness_ref. apply Z.min_le_compat_l, Z.div_le_mono; nia. Qed.

(** C24: which duty cycles the [B] command can set: the brightness does
    not decrease with the payload from 3 upwards, every level from 0 to
    73 is set by some payload in [3 .. 140], but no payload a six-byte
    frame can carry ever sets the level 74: the curve's steps skip it
    (as they skip 63 more levels above it). *)
Theorem brightness_levels p x y :
  p = binary32 \/ p = binary64 -> 3 <= x -> x <= y <= 999 ->
  brightness_curve p x <= brightness_curve p y /\
  (forall v, 0 <= v <= 73 -> exists z, 3 <= z <= 140 /\ brightness_curve p z = v) /\
  (forall z, -99 <= z <= 999 -> brightness_curve p z <> 74).
Proof.
  intros Hp Hx Hxy. split; [rewrite !curve_exact by (auto; lia); apply ref_monotone; lia|]. split.
  - intros v Hv. pose proof (Z_forall_in_spec _ _ _ ref_levels_low v ltac:(lia)) as H.
    apply existsb_exists in H as (k & Hk & Hr). apply in_seq in Hk.
    apply bool_decide_eq_true_1 in Hr.
    exists (3 + Z.of_nat k). split; [lia|]. rewrite curve_exact by (auto; lia). exact Hr.
  - intros z Hz. rewrite curve_exact by (auto; lia).
    pose proof (Z_forall_in_spec _ _ _ ref_skips_74 z ltac:(lia)) as H.
    apply negb_true_iff, bool_decide_eq_false_1 in H. exact H.
Qed.

(** ** Witnesses *)

Lemma brightness_curve_exact_witness :
  brightness_curve binary32 128 = brightness_ref 128 /\ brightness_curve binary64 128 = brightness_ref 128.
Proof. apply (brightness_curve_exact 128). lia. Defined.

Lemma brightness_payload_max_witness :
  0 <= brightness_curve binary32 128 <= 250 /\ brightness_curve binary32 255 = 250 /\
  brightness_curve binary32 258 = 255.
Proof. apply (brightness_payload_max binary32 128); [left; reflexivity | lia]. Defined.

Lemma brightness_levels_witness :
  brightness_curve binary32 128 <= brightness_curve binary32 255 /\
  (forall v, 0 <= v <= 73 -> exists z, 3 <= z <= 140 /\ brightness_curve binary32 z = v) /\
  (forall z, -99 <= z <= 999 -> brightness_curve binary32 z <> 74).
Proof. apply (brightness_levels binary32 128 255); [left; reflexivity | lia | lia]. Defined.
