(* ===== verification/Dispatcher.v ===== *)
(** * Dispatcher: [handleSerial], main.cpp 103-247

    Once [Serial.available() >= 6], the handler clears a 20-byte buffer
    [str], reads into it with [Serial.readBytesUntil('\r', str, 20)],
    takes the command letter [str[1]] and the payload [str + 2], and runs
    the [switch] of lines 116-245: each known letter writes one reply
    built by [sprintf] into [temp] and may change the light, the
    brightness or (through [setShutter]) the shutter's request; an
    unknown letter does nothing.  The handler is defined in a section
    over the [ShutterControl] interface: its theorems use only what the
    interface promises of [setShutter].

    [readBytesUntil] is the Arduino core's [Stream] method: it stores up
    to [length] bytes, stops at the terminator (consumed, not stored) or
    when no byte arrives before the stream timeout; here the bytes that
    arrive in time are the ones in [serialIn]. *)

From S2P Require Import Prelude Device Shutter Text SoftFloat Brightness.
Open Scope Z_scope.
Open Scope flatbox_scope.

(** ** Reading a frame *)

Fixpoint readBytesUntil (term : ascii) (len : nat) (inp : list ascii) : list ascii * list ascii :=
  match len, inp with
  | O, _ => ([], inp)
  | S _, [] => ([], [])
  | S n, c :: rest =>
      if bool_decide (c = term) then ([], rest)
      else let '(got, rest') := readBytesUntil term n rest in (c :: got, rest')
  end.

Definition STR_LEN : nat := 20.

(** [memset(str, 0, 20); Serial.readBytesUntil('\r', str, 20);]: the
    buffer after the read, and the bytes left in the serial buffer. *)
Definition read_frame (inp : list ascii) : list ascii * list ascii :=
  let '(got, rest) := readBytesUntil CR STR_LEN inp in
  (got ++ repeat NUL (STR_LEN - length got), rest).

(** [cmd = str + 1; data = str + 2;] *)
Definition cmd_of (str : list ascii) : ascii := nth 1 str NUL.
Definition data_of (str : list ascii) : list ascii := drop 2 str.

(** ** Commands: the case labels of the [switch] *)

Inductive command := CmdP | CmdO | CmdC | CmdL | CmdD | CmdB | CmdJ | CmdS | CmdV.

Definition decode (c : ascii) : option command :=
  if bool_decide (c = "P"%char) then Some CmdP
  else if bool_decide (c = "O"%char) then Some CmdO
  else if bool_decide (c = "C"%char) then Some CmdC
  else if bool_decide (c = "L"%char) then Some CmdL
  else if bool_decide (c = "D"%char) then Some CmdD
  else if bool_decide (c = "B"%char) then Some CmdB
  else if bool_decide (c = "J"%char) then Some CmdJ
  else if bool_decide (c = "S"%char) then Some CmdS
  else if bool_decide (c = "V"%char) then Some CmdV
  else None.

Definition command_letter (c : command) : ascii :=
  match c with
  | CmdP => "P" | CmdO => "O" | CmdC => "C" | CmdL => "L" | CmdD => "D"
  | CmdB => "B" | CmdJ => "J" | CmdS => "S" | CmdV => "V"
  end.

(** ** Replies *)

(** [sprintf(temp, "*X%d...\n", deviceId, ...)]: marker, letter, device
    id, payload, newline. *)
Definition reply (letter : ascii) (dev : devices) (payload : list ascii) : list ascii :=
  "*"%char :: letter :: fmt_d (devices_val dev) ++ payload ++ [LF].

Definition OOO : list ascii := ["O"; "O"; "O"]%char.

(** The firmware version of line 241: [003]. *)
Definition VERSION : list ascii := ["0"; "0"; "3"]%char.

(** The three status digits of line 229: motor, light, cover. *)
Definition status_payload (s : State) : list ascii :=
  fmt_d (motorStatuses_val (motorStatus s)) ++ fmt_d (lightStatuses_val (lightStatus s)) ++
  fmt_d (shutterStatuses_val (coverStatus s)).

Definition serial_write (bytes : list ascii) (s : State) : State := emit (SerialWrite bytes) s.
Definition analogWrite (pin v : Z) (s : State) : State := emit (AnalogWrite pin v) s.

Section Dispatch.
Context `{ShutterControl}.

(** One case of the [switch], lines 123-244, on the buffer [str]. *)
Definition run_command (c : command) (str : list ascii) (s : State) : State :=
  let id := deviceId s in
  match c with
  | CmdP => serial_write (reply "P" id OOO) s
  | CmdO => serial_write (reply "O" id OOO) (sc_setShutter OPEN s)
  | CmdC => serial_write (reply "C" id OOO) (sc_setShutter CLOSED s)
  | CmdL => analogWrite LED_PIN (brightness s) (set_lightStatus ON (serial_write (reply "L" id OOO) s))
  | CmdD => analogWrite LED_PIN 0 (set_lightStatus OFF (serial_write (reply "D" id OOO) s))
  | CmdB =>
      let b := brightness_curve binary32 (atoi (data_of str)) in
      let s1 := set_brightness b s in
      let s2 := if bool_decide (lightStatus s1 = ON) then analogWrite LED_PIN b s1 else s1 in
      serial_write (reply "B" id (fmt_0d 3 b)) s2
  | CmdJ => serial_write (reply "J" id (fmt_0d 3 (brightness s))) s
  | CmdS => serial_write (reply "S" id (status_payload s)) s
  | CmdV => serial_write (reply "V" id VERSION) s
  end.

(** main.cpp 103-247. *)
Definition handleSerial (s : State) : State :=
  if bool_decide (6 <= length (serialIn s))%nat then
    let '(str, rest) := read_frame (serialIn s) in
    let s1 := set_serialIn rest s in
    match decode (cmd_of str) with
    | Some c => run_command c str s1
    | None => s1
    end
  else s.

End Dispatch.

(** A six-byte request frame: marker, letter, three payload bytes, ['\r']. *)
Definition frame (marker letter p1 p2 p3 : ascii) : list ascii :=
  [marker; letter; p1; p2; p3; CR].

(** The payload of the reply to each command, as the spec's table (4.1)
    lists it, for a request whose three payload bytes are [payload]. *)
Definition reply_payload (c : command) (payload : list ascii) (s : State) : list ascii :=
  match c with
  | CmdP | CmdO | CmdC | CmdL | CmdD => OOO
  | CmdB => fmt_0d 3 (brightness_curve binary32 (atoi payload))
  | CmdJ => fmt_0d 3 (brightness s)
  | CmdS => status_payload s
  | CmdV => VERSION
  end.

(** ** What the interface gives the dispatcher *)

Lemma shutter_frame_fields s t :
  shutter_frame t = shutter_frame s ->
  deviceId t = deviceId s /\ motorStatus t = motorStatus s /\ coverStatus t = coverStatus s /\
  lightStatus t = lightStatus s /\ brightness t = brightness s /\
  serialIn t = serialIn s /\ io t = io s.
Proof. unfold shutter_frame. intros E. injection E. auto 10. Qed.

(** [readBytesUntil] on a line shorter than the buffer: the line is
    stored and the terminator consumed. *)
Lemma readBytesUntil_line term n got rest :
  Forall (fun c => c <> term) got -> (length got < n)%nat ->
  readBytesUntil term n (got ++ term :: rest) = (got, rest).
Proof.
  revert n. induction got as [|c got IH]; intros [|n] Hn Hlen; simpl in *; try lia.
  - by rewrite bool_decide_eq_true_2.
  - apply Forall_cons_1 in Hn as [Hc Hn].
    rewrite bool_decide_eq_false_2 by exact Hc. rewrite IH by (auto; lia). reflexivity.
Qed.

Lemma read_frame_line got rest :
  Forall (fun c => c <> CR) got -> (length got < STR_LEN)%nat ->
  read_frame (got ++ CR :: rest) = (got ++ repeat NUL (STR_LEN - length got), rest).
Proof. intros Hn Hlen. unfold read_frame. by rewrite readBytesUntil_line. Qed.

(** [readBytesUntil] when the first [n] bytes hold no terminator: it
    stores [n] bytes and stops. *)
Lemma readBytesUntil_full term n inp :
  (n <= length inp)%nat -> Forall (fun c => c <> term) (take n inp) ->
  readBytesUntil term n inp = (take n inp, drop n inp).
Proof.
  revert inp. induction n as [|n IH]; intros [|c inp] Hlen Hn; simpl in *; try (lia || reflexivity).
  apply Forall_cons_1 in Hn as [Hc Hn].
  rewrite bool_decide_eq_false_2 by exact Hc. rewrite IH by (auto; lia). reflexivity.
Qed.

(** Requests sent with CRLF line endings: each frame followed by ['\n']. *)
Definition crlf_frames (reqs : list (ascii * ascii * ascii * ascii)) : list ascii :=
  concat (map (fun '(l, p1, p2, p3) => frame ">" l p1 p2 p3 ++ [LF]) reqs).

Definition no_cr (req : ascii * ascii * ascii * ascii) : Prop :=
  let '(l, p1, p2, p3) := req in Forall (fun c => c <> CR) [l; p1; p2; p3].

#[export] Instance no_cr_dec req : Decision (no_cr req).
Proof. destruct req as [[[l p1] p2] p3]. apply _. Defined.

Section DispatchFacts.
Context `{ShutterControl}.

Lemma sc_fields v s :
  let t := sc_setShutter v s in
  deviceId t = deviceId s /\ motorStatus t = motorStatus s /\ coverStatus t = coverStatus s /\
  lightStatus t = lightStatus s /\ brightness t = brightness s /\
  serialIn t = serialIn s /\ io t = io s.
Proof. apply shutter_frame_fields, sc_setShutter_frame. Qed.

Lemma sc_io v s : io (sc_setShutter v s) = io s.
Proof. apply (sc_fields v s). Qed.
Lemma sc_serialIn v s : serialIn (sc_setShutter v s) = serialIn s.
Proof. apply (sc_fields v s). Qed.
Lemma sc_deviceId v s : deviceId (sc_setShutter v s) = deviceId s.
Proof. apply (sc_fields v s). Qed.
Lemma sc_brightness v s : brightness (sc_setShutter v s) = brightness s.
Proof. apply (sc_fields v s). Qed.
Lemma sc_lightStatus v s : lightStatus (sc_setShutter v s) = lightStatus s.
Proof. apply (sc_fields v s). Qed.

Lemma decode_letter l c : decode l = Some c -> command_letter c = l.
Proof. unfold decode. repeat case_bool_decide; intros E; simplify_eq; reflexivity. Qed.

(** The buffer after reading a six-byte frame, and what is left. *)
Lemma read_frame_frame m l p1 p2 p3 rest :
  Forall (fun c => c <> CR) [m; l; p1; p2; p3] ->
  read_frame (frame m l p1 p2 p3 ++ rest) = ([m; l; p1; p2; p3] ++ repeat NUL 15, rest).
Proof.
  intros Hn. repeat (apply Forall_cons_1 in Hn as [? Hn]).
  unfold read_frame, frame. cbn [readBytesUntil app STR_LEN].
  rewrite !bool_decide_eq_false_2 by assumption.
  rewrite (bool_decide_eq_true_2 (CR = CR)) by reflexivity. reflexivity.
Qed.

Lemma atoi_frame_data m l p1 p2 p3 :
  atoi (data_of ([m; l; p1; p2; p3] ++ repeat NUL 15)) = atoi [p1; p2; p3].
Proof. unfold data_of. simpl. apply (atoi_cstring [p1; p2; p3]). Qed.

(** One step of [handleSerial] on a complete frame at the head of the
    serial buffer. *)
Lemma handleSerial_frame_eq m l p1 p2 p3 rest s :
  serialIn s = frame m l p1 p2 p3 ++ rest ->
  Forall (fun c => c <> CR) [m; l; p1; p2; p3] ->
  handleSerial s =
  match decode l with
  | Some c => run_command c ([m; l; p1; p2; p3] ++ repeat NUL 15) (set_serialIn rest s)
  | None => set_serialIn rest s
  end.
Proof.
  intros Hin Hn. unfold handleSerial. rewrite Hin.
  rewrite bool_decide_eq_true_2 by (simpl; lia).
  rewrite read_frame_frame by exact Hn. reflexivity.
Qed.

(** Every command writes exactly the reply of the table. *)
Lemma run_command_reply c m l p1 p2 p3 s :
  replies (io (run_command c ([m; l; p1; p2; p3] ++ repeat NUL 15) s)) =
  replies (io s) ++ [reply (command_letter c) (deviceId s) (reply_payload c [p1; p2; p3] s)] /\
  serialIn (run_command c ([m; l; p1; p2; p3] ++ repeat NUL 15) s) = serialIn s.
Proof.
  destruct c; unfold run_command, serial_write, analogWrite; rewrite ?atoi_frame_data;
    try case_bool_decide; state_simpl; rewrite ?sc_io, ?sc_serialIn; auto.
Qed.

(** Only the [B] command writes the brightness. *)
Lemma run_command_brightness c str s :
  c <> CmdB -> brightness (run_command c str s) = brightness s.
Proof.
  intros Hc. destruct c; simpl; rewrite ?sc_brightness; congruence.
Qed.

Lemma reply_payload_serialIn c p r s :
  reply_payload c p (set_serialIn r s) = reply_payload c p s.
Proof. by destruct c. Qed.

Lemma run_command_data c str1 str2 s :
  data_of str1 = data_of str2 -> run_command c str1 s = run_command c str2 s.
Proof. intros E. destruct c; simpl; rewrite ?E; reflexivity. Qed.

(** The guard of line 104. *)
Lemma handleSerial_short s : (length (serialIn s) < 6)%nat -> handleSerial s = s.
Proof. intros Hlt. unfold handleSerial. rewrite bool_decide_eq_false_2 by lia. reflexivity. Qed.

(** C12: the dispatcher never acts on a partial frame:
    with fewer than six bytes buffered, [handleSerial] changes nothing. *)
Theorem handleSerial_waits s :
  (length (serialIn s) < 6)%nat -> handleSerial s = s.
Proof. apply handleSerial_short. Qed.

(** A complete frame at the head of the buffer: what remains and what is replied. *)
Lemma handleSerial_frame_spec m l p1 p2 p3 rest s :
  serialIn s = frame m l p1 p2 p3 ++ rest ->
  Forall (fun c => c <> CR) [m; l; p1; p2; p3] ->
  let t := handleSerial s in
  serialIn t = rest /\
  replies (io t) =
  replies (io s) ++ match decode l with
                    | Some c => [reply l (deviceId s) (reply_payload c [p1; p2; p3] s)]
                    | None => []
                    end.
Proof.
  intros Hin Hn. cbn zeta. rewrite (handleSerial_frame_eq _ _ _ _ _ _ _ Hin Hn).
  destruct (decode l) as [c|] eqn:Hc.
  - destruct (run_command_reply c m l p1 p2 p3 (set_serialIn rest s)) as [Hr Hs].
    rewrite Hr, Hs, reply_payload_serialIn, (decode_letter l c Hc). state_simpl. auto.
  - state_simpl. rewrite app_nil_r. auto.
Qed.

(** C4: on a complete six-byte frame at the head of
    the serial buffer, [handleSerial] consumes exactly those six bytes
    and writes exactly one reply, [*], the command letter, the device id,
    the payload of the command table and ['\n'], when the letter is a
    known command, and no reply at all otherwise. *)
Theorem handleSerial_frame m l p1 p2 p3 rest s :
  serialIn s = frame m l p1 p2 p3 ++ rest ->
  Forall (fun c => c <> CR) [m; l; p1; p2; p3] ->
  let t := handleSerial s in
  serialIn t = rest /\
  replies (io t) =
  replies (io s) ++ match decode l with
                    | Some c => [reply l (deviceId s) (reply_payload c [p1; p2; p3] s)]
                    | None => []
                    end.
Proof. apply handleSerial_frame_spec. Qed.

(** C11: a frame whose letter is none of
    [P O C L D B J S V] is consumed and otherwise ignored: no reply, no
    effect on the light, the brightness or the shutter. *)
Theorem unknown_command_silent m l p1 p2 p3 rest s :
  serialIn s = frame m l p1 p2 p3 ++ rest ->
  Forall (fun c => c <> CR) [m; l; p1; p2; p3] ->
  decode l = None ->
  handleSerial s = set_serialIn rest s.
Proof. intros Hin Hn Hl. by rewrite (handleSerial_frame_eq _ _ _ _ _ _ _ Hin Hn), Hl. Qed.

(** C20: the first byte of a frame is never
    examined: a frame that starts with any byte other than ['\r'] is
    handled exactly as the same frame starting with ['>']. *)
Theorem start_marker_unchecked m l p1 p2 p3 rest s :
  Forall (fun c => c <> CR) [m; l; p1; p2; p3] ->
  handleSerial (set_serialIn (frame m l p1 p2 p3 ++ rest) s) =
  handleSerial (set_serialIn (frame ">" l p1 p2 p3 ++ rest) s).
Proof.
  intros Hn. assert (Hn' : Forall (fun c => c <> CR) [">"%char; l; p1; p2; p3]).
  { inversion Hn. constructor; [discriminate | assumption]. }
  rewrite (handleSerial_frame_eq m l p1 p2 p3 rest) by (try reflexivity; assumption).
  rewrite (handleSerial_frame_eq ">" l p1 p2 p3 rest) by (try reflexivity; assumption).
  destruct (decode l); [|reflexivity].
  state_simpl. by apply run_command_data.
Qed.

(** A ['\n'] left before a CRLF request shifts the frame by one byte:
    the letter is read from the request's ['>'] and the request is
    dropped; the ['\n'] after it is left in its place. *)
Lemma handleSerial_shifted l p1 p2 p3 rest s :
  serialIn s = LF :: frame ">" l p1 p2 p3 ++ LF :: rest ->
  no_cr (l, p1, p2, p3) ->
  handleSerial s = set_serialIn (LF :: rest) s.
Proof.
  intros Hin Hn. unfold handleSerial.
  assert (E : LF :: frame ">" l p1 p2 p3 ++ LF :: rest = [LF; ">"; l; p1; p2; p3]%char ++ CR :: LF :: rest)
    by reflexivity.
  rewrite Hin, E, bool_decide_eq_true_2 by (simpl; lia).
  rewrite read_frame_line; [reflexivity| |unfold STR_LEN; simpl; lia].
  simpl in Hn. repeat (apply Forall_cons_1 in Hn as [? Hn]).
  repeat constructor; first [discriminate | assumption].
Qed.

(** C22: a host that ends its requests with CRLF, as the comment of
    line 104 suggests, is answered once at most: once a ['\n'] is left in
    the buffer, every later request of the stream is consumed without any
    reply or other effect, and the buffer again holds just ['\n']. *)
Theorem crlf_requests_dropped reqs s :
  serialIn s = LF :: crlf_frames reqs ->
  Forall no_cr reqs ->
  (handleSerial ^^ length reqs) s = set_serialIn [LF] s.
Proof.
  revert s. induction reqs as [|[[[l p1] p2] p3] reqs IH]; intros s Hin Hn.
  - destruct s; simpl in *. by rewrite Hin.
  - apply Forall_cons_1 in Hn as [Hr Hn].
    assert (Hin' : serialIn s = LF :: frame ">" l p1 p2 p3 ++ LF :: crlf_frames reqs)
      by (rewrite Hin; reflexivity).
    cbn [length]. rewrite <- Nat.add_1_r, iter_add. simpl Nat.iter at 2.
    rewrite (handleSerial_shifted _ _ _ _ _ _ Hin' Hr), (IH (set_serialIn (LF :: crlf_frames reqs) s) eq_refl Hn). reflexivity.
Qed.

End DispatchFacts.

(** What a shutter request leaves alone, for [autorewrite with flatbox]. *)
#[export] Hint Rewrite @sc_io @sc_serialIn @sc_deviceId @sc_brightness @sc_lightStatus : flatbox.

(** ** Lines that fill the buffer *)

(** C23: when the first 20 bytes received contain neither ['\r'] nor a
    NUL byte, [readBytesUntil] fills all 20 bytes of [str]: the buffer
    whose tail [data = str + 2] is passed to [atoi] then holds no
    terminating NUL, so [atoi] reads past the end of [str]. *)
Theorem read_frame_unterminated inp :
  (STR_LEN <= length inp)%nat ->
  Forall (fun c => c <> CR /\ c <> NUL) (take STR_LEN inp) ->
  let str := (read_frame inp).1 in
  length str = STR_LEN /\ (NUL ∉ str) /\ length (data_of str) = 18%nat.
Proof.
  intros Hlen Hn. cbn zeta. unfold read_frame.
  rewrite readBytesUntil_full by (done || (eapply Forall_impl; [exact Hn | intros ? []; done])).
  cbn [fst]. rewrite length_take_le by exact Hlen. rewrite Nat.sub_diag, app_nil_r.
  unfold data_of. rewrite length_drop, length_take_le by exact Hlen.
  split; [reflexivity|]. split; [|reflexivity].
  intros Hin. rewrite Forall_forall in Hn. by destruct (Hn NUL Hin).
Qed.

(** ** Reply sizes *)

Definition fits_3 (b : Z) : bool := bool_decide (length (fmt_0d 3 b) = 3%nat).

Lemma fits_3_all : Z_forall_in 0 1000 fits_3 = true.
Proof. vm_compute. reflexivity. Qed.

Lemma fmt_0d_3_length b : 0 <= b <= 999 -> length (fmt_0d 3 b) = 3%nat.
Proof.
  intros Hb. pose proof (Z_forall_in_spec _ _ _ fits_3_all b ltac:(lia)) as H.
  unfold fits_3 in H. by apply bool_decide_eq_true_1 in H.
Qed.

Lemma device_id_length d : length (fmt_d (devices_val d)) = 2%nat.
Proof. by destruct d. Qed.

(** C13: every reply, with the NUL [sprintf] appends, fits
    the 10-byte buffer [temp] of line 107, for every device id, whenever
    the stored brightness is in [0 .. 255]. *)
Theorem reply_fits_temp c p s :
  0 <= brightness s <= 255 ->
  (length (reply (command_letter c) (deviceId s) (reply_payload c p s)) + 1 <= 10)%nat.
Proof.
  intros Hb. unfold reply. simpl length. rewrite length_app, device_id_length. simpl length.
  rewrite length_app. simpl length.
  assert (Hp : length (reply_payload c p s) = 3%nat).
  { destruct c; simpl; try reflexivity.
    - apply fmt_0d_3_length. pose proof (brightness_curve_range binary32 (atoi p)). lia.
    - apply fmt_0d_3_length. lia.
    - unfold status_payload. by destruct (motorStatus s), (lightStatus s), (coverStatus s). }
  lia.
Qed.

(** The field after the marker, the letter and the two-digit device id. *)
Lemma reply_field letter dev payload : drop 4 (reply letter dev payload) = payload ++ [LF].
Proof. by destruct dev. Qed.

(** What the [B] command stores, on a complete frame. *)
Lemma handleSerial_B_brightness m p1 p2 p3 rest s :
  serialIn s = frame m "B" p1 p2 p3 ++ rest ->
  Forall (fun c => c <> CR) [m; "B"%char; p1; p2; p3] ->
  brightness (handleSerial s) = brightness_curve binary32 (atoi [p1; p2; p3]).
Proof.
  intros Hin Hn. rewrite (handleSerial_frame_eq _ _ _ _ _ _ _ Hin Hn).
  change (decode "B"%char) with (Some CmdB).
  unfold run_command, serial_write, analogWrite. cbv beta iota zeta.
  case_bool_decide; state_simpl; by rewrite atoi_frame_data.
Qed.

(** C10: the brightness replies round-trip: for a [B] or a [J] request,
    a host that reads the three-digit field of the reply (after [*], the
    letter and the two-digit device id) with [atoi] gets back exactly
    the brightness the sketch holds after the command; in particular a
    [B] reply reports the stored curve value, not the requested one. *)
Theorem brightness_reply_roundtrip m l p1 p2 p3 rest s :
  serialIn s = frame m l p1 p2 p3 ++ rest ->
  Forall (fun c => c <> CR) [m; l; p1; p2; p3] ->
  (l = "B"%char \/ l = "J"%char) -> 0 <= brightness s <= 255 ->
  exists r, replies (io (handleSerial s)) = replies (io s) ++ [r] /\
            atoi (drop 4 r) = brightness (handleSerial s).
Proof.
  intros Hin Hn Hl Hb.
  destruct (handleSerial_frame_spec _ _ _ _ _ _ _ Hin Hn) as [_ Hr].
  destruct Hl as [-> | ->]; simpl in Hr; eexists; (split; [exact Hr|]);
    rewrite reply_field; cbn [reply_payload].
  - rewrite (handleSerial_B_brightness _ _ _ _ _ _ Hin Hn).
    apply atoi_fmt_0d; [apply brightness_curve_range | intros ? ? [= <- _]; reflexivity].
  - rewrite (handleSerial_frame_eq _ _ _ _ _ _ _ Hin Hn). simpl. state_simpl.
    apply atoi_fmt_0d; [lia | intros ? ? [= <- _]; reflexivity].
Qed.

(** ** Witnesses, with the shutter engine of [Shutter] behind the interface *)

(** A fresh Flip-Flat with [bytes] received. *)
Definition fresh_with (bytes : list ascii) : State := receive bytes (globals_init FLIP_FLAT).

Lemma handleSerial_waits_witness :
  handleSerial (fresh_with [">"; "P"; "O"]%char) = fresh_with [">"; "P"; "O"]%char.
Proof. apply handleSerial_waits. simpl. lia. Defined.

Lemma handleSerial_frame_witness :
  let s := fresh_with (frame ">" "J" "O" "O" "O") in
  let t := handleSerial s in
  serialIn t = [] /\
  replies (io t) =
  replies (io s) ++ match decode "J" with
                    | Some c => [reply "J" (deviceId s) (reply_payload c ["O"; "O"; "O"]%char s)]
                    | None => []
                    end.
Proof. apply (handleSerial_frame ">" "J" "O" "O" "O" []); [reflexivity | decide_true]. Defined.

Lemma unknown_command_silent_witness :
  handleSerial (fresh_with (frame ">" "Z" "O" "O" "O")) = set_serialIn [] (fresh_with (frame ">" "Z" "O" "O" "O")).
Proof. apply (unknown_command_silent ">" "Z" "O" "O" "O" []); [reflexivity | decide_true | reflexivity]. Defined.

Lemma start_marker_unchecked_witness :
  handleSerial (set_serialIn (frame "#" "V" "O" "O" "O" ++ []) (globals_init FLIP_FLAT)) =
  handleSerial (set_serialIn (frame ">" "V" "O" "O" "O" ++ []) (globals_init FLIP_FLAT)).
Proof. apply start_marker_unchecked. decide_true. Defined.

Lemma crlf_requests_dropped_witness :
  let s := fresh_with (LF :: crlf_frames [("S", "O", "O", "O"); ("B", "1", "2", "8")]%char) in
  (handleSerial ^^ 2) s = set_serialIn [LF] s.
Proof. apply (crlf_requests_dropped [("S", "O", "O", "O"); ("B", "1", "2", "8")]%char); [reflexivity | decide_true]. Defined.

Lemma read_frame_unterminated_witness :
  let str := (read_frame (repeat "A"%char 20)).1 in
  length str = STR_LEN /\ (NUL ∉ str) /\ length (data_of str) = 18%nat.
Proof. apply read_frame_unterminated; [reflexivity | decide_true]. Defined.

Lemma brightness_reply_roundtrip_witness :
  let s := fresh_with (frame ">" "B" "1" "2" "8") in
  exists r, replies (io (handleSerial s)) = replies (io s) ++ [r] /\
            atoi (drop 4 r) = brightness (handleSerial s).
Proof.
  apply (brightness_reply_roundtrip ">" "B" "1" "2" "8" []);
    [by_eval | decide_true | left; reflexivity | simpl; lia].
Defined.

Lemma reply_fits_temp_witness :
  (length (reply (command_letter CmdB) (deviceId (globals_init FLIP_FLAT))
             (reply_payload CmdB ["2"; "5"; "5"]%char (globals_init FLIP_FLAT))) + 1 <= 10)%nat.
Proof. apply reply_fits_temp. simpl. lia. Defined.
