(* ===== verification/Loop.v ===== *)
(** * Loop: [setup] and [loop], main.cpp 78-101, and the whole device

    [loop] runs [handleSerial] (with the shutter engine of [Shutter] as
    its [ShutterControl]), one [handleMotor] step, then samples the
    override switch and attaches or detaches the servo on a change.  The
    environment acts between iterations: bytes arrive on the serial line
    and the switch has a level.  [reachable dev] is the set of states of
    a device built with [deviceId = dev], by induction over iterations
    from [setup].  The invariant [system_inv] holds in every reachable
    state; the end-to-end theorems follow requests through whole
    iterations. *)

From S2P Require Import Prelude Device Shutter Text SoftFloat Brightness Dispatcher.
Open Scope Z_scope.
Open Scope flatbox_scope.

(** main.cpp 92-100. *)
Definition switch_edge (level : bool) (s : State) : State :=
  let s1 := set_currentSwitchState level s in
  if bool_decide (currentSwitchState s1 <> lastSwitchState s1) then
    let s2 := set_lastSwitchState (currentSwitchState s1) s1 in
    if currentSwitchState s2 then emit (ServoAttach SERVO_PIN) s2 else emit ServoDetach s2
  else s1.

(** main.cpp 89-101; [level] is [digitalRead(SWITCH_PIN)]. *)
Definition loop (level : bool) (s : State) : State :=
  switch_edge level (handleMotor (handleSerial s)).

(** main.cpp 78-87. *)
Definition setup (s : State) : State :=
  emit ServoDetach
    (emit (Delay SERVO_INITIAL_WAIT)
       (emit (ServoWrite 180)
          (emit (ServoAttach SERVO_PIN)
             (emit (AnalogWrite LED_PIN 0)
                (emit (PinMode SWITCH_PIN INPUT)
                   (emit (PinMode LED_PIN OUTPUT)
                      (emit (SerialBegin 9600) s))))))).

Definition boot (dev : devices) : State := setup (globals_init dev).

(** One iteration: [bytes] arrive, then [loop] runs with the switch at [level]. *)
Definition iteration (bytes : list ascii) (level : bool) (s : State) : State :=
  loop level (receive bytes s).

Inductive reachable (dev : devices) : State -> Prop :=
  | reach_boot : reachable dev (boot dev)
  | reach_iter s bytes level : reachable dev s -> reachable dev (iteration bytes level s).

(** The light: brightness in range, and the LED pin driven at the
    brightness when the light is on and at 0 when it is off. *)
Definition light_inv (s : State) : Prop :=
  0 <= brightness s <= 255 /\
  led_level (io s) = Some (if bool_decide (lightStatus s = ON) then brightness s else 0).

(** The switch: the servo is powered exactly when the last sampled level is high. *)
Definition switch_inv (s : State) : Prop :=
  lastSwitchState s = currentSwitchState s /\ servo_attached (io s) = currentSwitchState s.

Definition system_inv (s : State) : Prop :=
  shutter_inv s /\ light_inv s /\ switch_inv s.

#[export] Instance light_inv_dec s : Decision (light_inv s).
Proof. unfold light_inv. apply _. Defined.
#[export] Instance switch_inv_dec s : Decision (switch_inv s).
Proof. unfold switch_inv. apply _. Defined.
#[export] Instance system_inv_dec s : Decision (system_inv s).
Proof. unfold system_inv. apply _. Defined.

(** Servo writes performed while the servo is detached (unpowered). *)
Fixpoint detached_writes (tr : list event) : nat :=
  match tr with
  | [] => 0
  | ServoWrite _ :: tr' => (if servo_attached tr' then 0 else 1) + detached_writes tr'
  | _ :: tr' => detached_writes tr'
  end.

(** A scenario: the switch goes high, an open request arrives, then the
    switch goes low for the next [n] iterations. *)
Definition open_then_switch_off (n : nat) : State :=
  (iteration [] false ^^ n)
    (iteration (frame ">" "O" "O" "O" "O") true (iteration [] true (boot FLIP_FLAT))).

(** The fields the shutter invariant reads. *)
Definition shutter_view (s : State) :=
  (motorStatus s, coverStatus s, motorDirection s, targetAngle s, currentAngle s).

(** Loop iterations with no new bytes, the switch at the given levels. *)
Definition run_loop (levels : list bool) (s : State) : State :=
  fold_left (fun t level => loop level t) levels s.

(** A request frame: marker, letter, three payload bytes. *)
Definition request := (ascii * ascii * ascii * ascii * ascii)%type.

Definition request_frame (r : request) : list ascii :=
  let '(m, l, p1, p2, p3) := r in frame m l p1 p2 p3.

Definition request_letter (r : request) : ascii :=
  let '(_, l, _, _, _) := r in l.

Definition request_payload (r : request) : list ascii :=
  let '(_, _, p1, p2, p3) := r in [p1; p2; p3].

Definition request_no_cr (r : request) : Prop :=
  let '(m, l, p1, p2, p3) := r in Forall (fun c => c <> CR) [m; l; p1; p2; p3].

#[export] Instance request_no_cr_dec r : Decision (request_no_cr r).
Proof. destruct r as [[[[m l] p1] p2] p3]. apply _. Defined.

(** Whether a letter is one of the cases of the [switch]. *)
Definition known (l : ascii) : bool :=
  match decode l with Some _ => true | None => false end.

(** ** Frame lemmas *)

Lemma shutter_view_fields s t :
  shutter_view t = shutter_view s ->
  motorStatus t = motorStatus s /\ coverStatus t = coverStatus s /\
  motorDirection t = motorDirection s /\ targetAngle t = targetAngle s /\ currentAngle t = currentAngle s.
Proof. unfold shutter_view. intros E. injection E. auto. Qed.

Lemma shutter_inv_view s t :
  shutter_view t = shutter_view s -> (shutter_inv t <-> shutter_inv s) /\ (motion_ok t <-> motion_ok s).
Proof.
  unfold shutter_view, shutter_inv, motion_ok. intros E.
  injection E as Hm Hc Hd Ht Ha. rewrite Hm, Hc, Hd, Ht, Ha. tauto.
Qed.

Lemma led_level_write v tr : led_level (AnalogWrite LED_PIN v :: tr) = Some v.
Proof. cbn [led_level]. by rewrite bool_decide_eq_true_2. Qed.

(** The dispatcher moves the shutter's view only through [setShutter]. *)
Lemma run_command_view c str s :
  shutter_view (run_command c str s) = shutter_view s \/
  exists v, shutter_view (run_command c str s) = shutter_view (setShutter v s).
Proof.
  destruct c; unfold run_command, serial_write, analogWrite;
    try case_bool_decide; state_simpl;
    first [left; reflexivity | right; eexists; reflexivity].
Qed.

Lemma view_request_ok s t :
  shutter_inv s ->
  (shutter_view t = shutter_view s \/ exists v, shutter_view t = shutter_view (setShutter v s)) ->
  motion_ok t /\ (motorDirection t = NONE -> shutter_inv t).
Proof.
  intros Hs [E | [v E]]; pose proof (shutter_inv_view _ _ E) as [Hi Hm].
  - split; [apply Hm; by apply inv_motion_ok | intros _; by apply Hi].
  - split; [apply Hm; by apply request_motion_ok|].
    injection E as _ _ Hd _ _. intros Hn. apply Hi, request_rest_inv; congruence.
Qed.

Lemma handleSerial_shutter s :
  shutter_inv s -> motion_ok (handleSerial s) /\ (motorDirection (handleSerial s) = NONE -> shutter_inv (handleSerial s)).
Proof.
  intros Hs. apply view_request_ok with (s := s); [exact Hs|].
  unfold handleSerial. case_bool_decide; [|by left].
  destruct (read_frame (serialIn s)) as [str rest].
  destruct (decode (cmd_of str)) as [c|]; [|by left].
  destruct (run_command_view c str (set_serialIn rest s)) as [E | [v E]]; rewrite E; [by left|].
  right. exists v. unfold setShutter. state_simpl. by repeat case_match.
Qed.

Lemma run_command_light c str s : light_inv s -> light_inv (run_command c str s).
Proof.
  unfold light_inv. intros [Hb Hl].
  destruct c; unfold run_command, serial_write, analogWrite; state_simpl;
    rewrite ?led_level_write; cbn [led_level];
    autorewrite with flatbox; auto.
  pose proof (brightness_curve_range binary32 (atoi (data_of str))).
  case_bool_decide; state_simpl; rewrite ?led_level_write; cbn [led_level].
  - rewrite bool_decide_eq_true_2 by assumption. auto.
  - rewrite Hl, !bool_decide_eq_false_2 by assumption. auto.
Qed.

Lemma handleSerial_light s : light_inv s -> light_inv (handleSerial s).
Proof.
  intros Hs. unfold handleSerial. case_bool_decide; [|exact Hs].
  destruct (read_frame (serialIn s)) as [str rest].
  destruct (decode (cmd_of str)); [apply run_command_light|]; exact Hs.
Qed.

(** What the dispatcher leaves alone: the switch and the servo power. *)
Lemma handleSerial_switch s :
  lastSwitchState (handleSerial s) = lastSwitchState s /\
  currentSwitchState (handleSerial s) = currentSwitchState s /\
  servo_attached (io (handleSerial s)) = servo_attached (io s) /\
  deviceId (handleSerial s) = deviceId s.
Proof.
  unfold handleSerial. case_bool_decide; [|auto].
  destruct (read_frame (serialIn s)) as [str rest].
  destruct (decode (cmd_of str)) as [c|]; [|auto].
  destruct c; unfold run_command, serial_write, analogWrite; try case_bool_decide;
    state_simpl; cbn [servo_attached sc_setShutter shutter_control]; unfold setShutter;
    repeat case_match; auto.
Qed.

(** What a motor step leaves alone: the light, the switch, the servo power. *)
Lemma handleMotor_keeps s :
  led_level (io (handleMotor s)) = led_level (io s) /\
  lightStatus (handleMotor s) = lightStatus s /\ brightness (handleMotor s) = brightness s /\
  lastSwitchState (handleMotor s) = lastSwitchState s /\
  currentSwitchState (handleMotor s) = currentSwitchState s /\
  servo_attached (io (handleMotor s)) = servo_attached (io s) /\
  deviceId (handleMotor s) = deviceId s.
Proof. unfold handleMotor, arrive. repeat case_match; state_simpl; cbn [led_level servo_attached]; auto 10. Qed.

Lemma handleMotor_light s : light_inv s -> light_inv (handleMotor s).
Proof.
  unfold light_inv. destruct (handleMotor_keeps s) as (Hl & Hs & Hb & _).
  rewrite Hl, Hs, Hb. auto.
Qed.

Lemma switch_edge_props level s :
  servo_attached (io s) = lastSwitchState s ->
  let t := switch_edge level s in
  switch_inv t /\ currentSwitchState t = level /\ shutter_view t = shutter_view s /\
  led_level (io t) = led_level (io s) /\ lightStatus t = lightStatus s /\
  brightness t = brightness s /\ deviceId t = deviceId s.
Proof.
  intros Ha. unfold switch_edge, switch_inv.
  case_bool_decide; state_simpl; [destruct level|]; cbn [led_level servo_attached]; auto 10.
  destruct (bool_decide_reflect (level = lastSwitchState s)); [|tauto]. subst. auto 10.
Qed.

Lemma receive_inv bytes s : system_inv s -> system_inv (receive bytes s).
Proof. unfold system_inv, light_inv, switch_inv. state_simpl. auto. Qed.

Lemma iteration_inv bytes level s : system_inv s -> system_inv (iteration bytes level s).
Proof.
  intros Hs0. pose proof (receive_inv bytes s Hs0) as (Hs & Hl & Hsw).
  unfold iteration, loop. set (r := receive bytes s) in *.
  destruct (handleSerial_shutter r Hs) as [Hok Hnone].
  pose proof (motion_ok_step_inv _ Hok Hnone) as Hm.
  pose proof (handleMotor_light _ (handleSerial_light r Hl)) as Hml.
  destruct (handleSerial_switch r) as (H1 & H2 & H3 & _).
  destruct (handleMotor_keeps (handleSerial r)) as (_ & _ & _ & H4 & H5 & H6 & _).
  destruct Hsw as [Hls Hat].
  destruct (switch_edge_props level (handleMotor (handleSerial r))) as (Hsw' & _ & Hv & Hled & Hls' & Hb & _);
    [congruence|].
  split; [|split; [|exact Hsw']].
  - by apply (shutter_inv_view _ _ Hv).
  - unfold light_inv in *. by rewrite Hled, Hls', Hb.
Qed.

Lemma boot_inv dev : system_inv (boot dev) /\ deviceId (boot dev) = dev.
Proof.
  unfold system_inv, shutter_inv, light_inv, switch_inv, boot, setup, globals_init.
  state_simpl. cbn [led_level servo_attached].
  rewrite (bool_decide_eq_true_2 (LED_PIN = LED_PIN)), (bool_decide_eq_false_2 (OFF = ON))
    by (reflexivity || discriminate).
  repeat split; auto; lia.
Qed.


Lemma iteration_deviceId bytes level s : deviceId (iteration bytes level s) = deviceId s.
Proof.
  unfold iteration, loop. set (r := receive bytes s).
  destruct (handleSerial_switch r) as (_ & _ & _ & H1).
  destruct (handleMotor_keeps (handleSerial r)) as (_ & _ & _ & _ & _ & _ & H2).
  assert (He : forall t, deviceId (switch_edge level t) = deviceId t)
    by (intros t; unfold switch_edge; repeat case_match; reflexivity).
  rewrite He, H2, H1. reflexivity.
Qed.

(** Rule induction over the runs. *)
Lemma reachable_system_inv dev s : reachable dev s -> system_inv s /\ deviceId s = dev.
Proof.
  induction 1 as [|s bytes level _ [Hs Hd]]; [apply boot_inv|].
  split; [by apply iteration_inv | by rewrite iteration_deviceId].
Qed.

(** C1: every state the device reaches from [setup],
    whatever bytes arrive and whatever the switch does, satisfies the
    invariant: the shutter invariant (direction, motor and cover status
    agree, angles within [OPEN_ANGLE .. CLOSED_ANGLE]), the brightness is
    in [0 .. 255] and the LED is driven at it exactly when the light is
    on (at 0 otherwise), the servo is powered exactly when the switch was
    last sampled high, and the device id never changes. *)
Theorem reachable_inv dev s : reachable dev s -> system_inv s /\ deviceId s = dev.
Proof. apply reachable_system_inv. Qed.

(** C8: in every reachable state the [S] command's
    three digits are consistent: the motor reads running exactly while a
    direction is set, the cover reads "moving" exactly while a direction
    is set, it reads open (closed) only with the angle at [OPEN_ANGLE]
    ([CLOSED_ANGLE]), and the [TIMED_OUT] status is never produced. *)
Theorem status_invariants dev s :
  reachable dev s ->
  (motorStatus s = RUNNING <-> motorDirection s <> NONE) /\
  (coverStatus s = NEITHER_OPEN_NOR_CLOSED <-> motorDirection s <> NONE) /\
  (coverStatus s = OPEN -> currentAngle s = OPEN_ANGLE) /\
  (coverStatus s = CLOSED -> currentAngle s = CLOSED_ANGLE) /\
  coverStatus s <> TIMED_OUT /\
  OPEN_ANGLE <= currentAngle s <= CLOSED_ANGLE.
Proof.
  intros Hr. destruct (reachable_system_inv dev s Hr) as [[Hs _] _]. revert Hs.
  unfold shutter_inv. destruct (motorDirection s); shutter_solve.
Qed.

(** ** Whole iterations *)

(** After the dispatcher, the rest of [loop] writes no reply and leaves
    the light, the brightness, the LED and the serial buffer alone. *)
Lemma loop_after_serial level t :
  let u := loop level t in
  let w := handleSerial t in
  replies (io u) = replies (io w) /\ serialIn u = serialIn w /\
  lightStatus u = lightStatus w /\ brightness u = brightness w /\
  led_level (io u) = led_level (io w) /\ deviceId u = deviceId w.
Proof.
  cbn zeta. unfold loop. set (w := handleSerial t).
  assert (Hm : replies (io (handleMotor w)) = replies (io w) /\ serialIn (handleMotor w) = serialIn w)
    by (unfold handleMotor, arrive; repeat case_match; state_simpl; cbn [replies]; auto).
  destruct (handleMotor_keeps w) as (Hl & Hs & Hb & _ & _ & _ & Hd).
  unfold switch_edge. repeat case_match; state_simpl; cbn [replies led_level]; intuition congruence.
Qed.

Lemma decode_S : decode "S" = Some CmdS. Proof. reflexivity. Qed.
Lemma decode_B : decode "B" = Some CmdB. Proof. reflexivity. Qed.
Lemma decode_J : decode "J" = Some CmdJ. Proof. reflexivity. Qed.
Lemma decode_O : decode "O" = Some CmdO. Proof. reflexivity. Qed.

(** C3: a status query reports the shutter engine's
    current phase: in a state of the invariant, the [S] reply's motor and
    cover digits are those of [Abstract.status] of the abstract phase, and
    its light digit the light status. *)
Theorem status_reply_phase m p1 p2 p3 rest s :
  system_inv s ->
  serialIn s = frame m "S" p1 p2 p3 ++ rest ->
  Forall (fun c => c <> CR) [m; "S"%char; p1; p2; p3] ->
  replies (io (handleSerial s)) =
  replies (io s) ++
  [reply "S" (deviceId s)
     (fmt_d (motorStatuses_val (Abstract.status (phase_of s)).1) ++
      fmt_d (lightStatuses_val (lightStatus s)) ++
      fmt_d (shutterStatuses_val (Abstract.status (phase_of s)).2))].
Proof.
  intros [Hs _] Hin Hn.
  destruct (handleSerial_frame_spec _ _ _ _ _ _ _ Hin Hn) as [_ Hr]. rewrite Hr, decode_S.
  simpl reply_payload. unfold status_payload. by rewrite <- (status_refines s Hs).
Qed.

Lemma switch_edge_view level s : shutter_view (switch_edge level s) = shutter_view s.
Proof. unfold switch_edge. repeat case_match; reflexivity. Qed.

(** What a frame does to the fields the end-to-end theorems follow. *)
Lemma handleSerial_frame_fields m l p1 p2 p3 rest s :
  serialIn s = frame m l p1 p2 p3 ++ rest ->
  Forall (fun c => c <> CR) [m; l; p1; p2; p3] ->
  let t := handleSerial s in
  deviceId t = deviceId s /\ serialIn t = rest /\
  (decode l <> Some CmdB -> brightness t = brightness s) /\
  (decode l = Some CmdB -> brightness t = brightness_ref (atoi [p1; p2; p3])) /\
  (decode l = Some CmdL -> led_level (io t) = Some (brightness s) /\ lightStatus t = ON).
Proof.
  intros Hin Hn. cbn zeta.
  destruct (handleSerial_frame_spec _ _ _ _ _ _ _ Hin Hn) as [Hs _].
  destruct (handleSerial_switch s) as (_ & _ & _ & Hd).
  rewrite (handleSerial_frame_eq _ _ _ _ _ _ _ Hin Hn) in *.
  split; [exact Hd|]. split; [exact Hs|].
  destruct (decode l) as [c|]; [|split; [reflexivity | split; discriminate]].
  split; [intros Hc; rewrite run_command_brightness by congruence; reflexivity|].
  split; intros [= ->]; unfold run_command, serial_write, analogWrite; state_simpl;
    [|rewrite led_level_write; auto].
  case_bool_decide; state_simpl; rewrite atoi_frame_data;
    (apply curve_exact; [left; reflexivity | apply atoi_payload]).
Qed.

(** C9: a [B] request followed by a [J] request, over two
    loop iterations: both replies carry the same three digits, those of
    the integer curve [brightness_ref] of the [B] payload, and that value
    is the stored brightness. *)
Theorem brightness_echo m p1 p2 p3 m' q1 q2 q3 rest l1 l2 s :
  serialIn s = frame m "B" p1 p2 p3 ++ frame m' "J" q1 q2 q3 ++ rest ->
  Forall (fun c => c <> CR) [m; "B"%char; p1; p2; p3] ->
  Forall (fun c => c <> CR) [m'; "J"%char; q1; q2; q3] ->
  let b := brightness_ref (atoi [p1; p2; p3]) in
  let u := loop l2 (loop l1 s) in
  replies (io u) = replies (io s) ++ [reply "B" (deviceId s) (fmt_0d 3 b); reply "J" (deviceId s) (fmt_0d 3 b)] /\
  brightness u = b.
Proof.
  intros Hin Hn Hn'. cbn zeta. set (t := loop l1 s).
  destruct (handleSerial_frame_spec _ _ _ _ _ _ _ Hin Hn) as [_ Hr1].
  destruct (handleSerial_frame_fields _ _ _ _ _ _ _ Hin Hn) as (Hd1 & Hs1 & _ & Hb1 & _).
  destruct (loop_after_serial l1 s) as (Hr & Hs & _ & Hb & _ & Hd).
  fold t in Hr, Hs, Hb, Hd. rewrite Hs1 in Hs.
  destruct (handleSerial_frame_spec _ _ _ _ _ _ _ Hs Hn') as [_ Hr2].
  destruct (handleSerial_frame_fields _ _ _ _ _ _ _ Hs Hn') as (_ & _ & Hb2 & _).
  destruct (loop_after_serial l2 t) as (Hr' & _ & _ & Hb' & _).
  rewrite Hr', Hr2, Hb', Hb2 by discriminate. rewrite decode_J, Hr, Hr1, decode_B.
  simpl reply_payload. rewrite Hb, Hb1 by reflexivity. rewrite Hd, Hd1.
  rewrite <- (curve_exact binary32) by (auto; apply atoi_payload).
  rewrite <- app_assoc. auto.
Qed.

(** C15: turning the light off then on, over two loop
    iterations and with no [B] in between, drives the LED at the
    brightness it had before, which neither request changes. *)
Theorem light_restore m p1 p2 p3 m' q1 q2 q3 rest l1 l2 s :
  serialIn s = frame m "D" p1 p2 p3 ++ frame m' "L" q1 q2 q3 ++ rest ->
  Forall (fun c => c <> CR) [m; "D"%char; p1; p2; p3] ->
  Forall (fun c => c <> CR) [m'; "L"%char; q1; q2; q3] ->
  let u := loop l2 (loop l1 s) in
  led_level (io u) = Some (brightness s) /\ lightStatus u = ON /\ brightness u = brightness s.
Proof.
  intros Hin Hn Hn'. cbn zeta. set (t := loop l1 s).
  destruct (handleSerial_frame_fields _ _ _ _ _ _ _ Hin Hn) as (_ & Hs1 & Hb1 & _).
  destruct (loop_after_serial l1 s) as (_ & Hs & _ & Hb & _).
  fold t in Hs, Hb. rewrite Hs1 in Hs.
  destruct (handleSerial_frame_fields _ _ _ _ _ _ _ Hs Hn') as (_ & _ & Hb2 & _ & HL).
  destruct (HL eq_refl) as [Hled Hon].
  destruct (loop_after_serial l2 t) as (_ & _ & Hl' & Hb' & Hled' & _).
  rewrite Hled', Hl', Hb', Hled, Hon, Hb2, Hb, Hb1 by discriminate. auto.
Qed.

(** C16: with the override switch sampled low,
    an open or close request at rest is acknowledged with its usual reply
    but starts no motion: the direction stays [NONE] and the cover status
    and angle are unchanged after the iteration. *)
Theorem request_dropped_switch_off m l p1 p2 p3 rest level s :
  system_inv s -> currentSwitchState s = false -> motorDirection s = NONE ->
  (l = "O"%char \/ l = "C"%char) ->
  serialIn s = frame m l p1 p2 p3 ++ rest ->
  Forall (fun c => c <> CR) [m; l; p1; p2; p3] ->
  let u := loop level s in
  motorDirection u = NONE /\ coverStatus u = coverStatus s /\ currentAngle u = currentAngle s /\
  replies (io u) = replies (io s) ++ [reply l (deviceId s) OOO].
Proof.
  intros _ Hsw Hd Hl Hin Hn. cbn zeta.
  destruct (handleSerial_frame_spec _ _ _ _ _ _ _ Hin Hn) as [_ Hr].
  destruct (loop_after_serial level s) as (Hr' & _).
  assert (Hv : shutter_view (handleSerial s) = shutter_view s).
  { rewrite (handleSerial_frame_eq _ _ _ _ _ _ _ Hin Hn).
    destruct Hl as [-> | ->]; simpl; cbn [sc_setShutter shutter_control];
      rewrite setShutter_disabled by exact Hsw; reflexivity. }
  assert (Hm : handleMotor (handleSerial s) = handleSerial s)
    by (apply handleMotor_rest; injection Hv; congruence).
  assert (Hu : shutter_view (loop level s) = shutter_view s)
    by (unfold loop; rewrite Hm, switch_edge_view; exact Hv).
  injection Hu as _ Hc Hd' _ Ha. rewrite Hr', Hr.
  destruct Hl as [-> | ->]; repeat split; congruence.
Qed.

(** C19: the [O] command is not restricted to the
    Flip-Flat: on every device id, with the switch high and the cover
    closed, it is acknowledged and starts opening the shutter in the same
    iteration; products without a motor (Flat-Man variants) drive the
    servo pin too. *)
Theorem open_ignores_device m p1 p2 p3 rest level s :
  system_inv s -> currentSwitchState s = true -> coverStatus s = CLOSED ->
  serialIn s = frame m "O" p1 p2 p3 ++ rest ->
  Forall (fun c => c <> CR) [m; "O"%char; p1; p2; p3] ->
  let u := loop level s in
  motorDirection u = OPENING /\ currentAngle u = CLOSED_ANGLE - 1 /\
  replies (io u) = replies (io s) ++ [reply "O" (deviceId s) OOO].
Proof.
  intros [Hs _] Hsw Hc Hin Hn. cbn zeta.
  destruct (handleSerial_frame_spec _ _ _ _ _ _ _ Hin Hn) as [_ Hr].
  destruct (loop_after_serial level s) as (Hr' & _).
  destruct (rest_at_closed s Hs Hc) as (Hd & Ha & Ht).
  assert (Hw : shutter_view (handleMotor (handleSerial s)) =
               (RUNNING, NEITHER_OPEN_NOR_CLOSED, OPENING, OPEN_ANGLE, CLOSED_ANGLE - 1)).
  { rewrite (handleSerial_frame_eq _ _ _ _ _ _ _ Hin Hn), decode_O. simpl.
    cbn [sc_setShutter shutter_control]. unfold setShutter. state_simpl.
    rewrite Hsw, Hc. simpl. unfold serial_write.
    rewrite handleMotor_opening
      by (state_simpl; rewrite ?Ha; unfold OPEN_ANGLE, CLOSED_ANGLE; first [reflexivity | lia]).
    unfold arrive. state_simpl.
    rewrite bool_decide_eq_false_2 by (rewrite Ha; unfold OPEN_ANGLE, CLOSED_ANGLE; lia).
    state_simpl. rewrite Ha. reflexivity. }
  assert (Hu : shutter_view (loop level s) = shutter_view (handleMotor (handleSerial s)))
    by apply switch_edge_view.
  rewrite Hw in Hu. injection Hu as _ _ Hd' _ Ha'.
  rewrite Hr', Hr, decode_O. auto.
Qed.





(** ** Several requests over several iterations *)

(** One iteration on a buffer that starts with a complete frame. *)
Lemma loop_request level r rest s :
  serialIn s = request_frame r ++ rest -> request_no_cr r ->
  let u := loop level s in
  serialIn u = rest /\
  replies (io u) = replies (io s) ++
    match decode (request_letter r) with
    | Some c => [reply (request_letter r) (deviceId s) (reply_payload c (request_payload r) s)]
    | None => []
    end.
Proof.
  destruct r as [[[[m l] p1] p2] p3]. simpl. intros Hin Hn.
  destruct (handleSerial_frame_spec _ _ _ _ _ _ _ Hin Hn) as [Hs Hr].
  destruct (loop_after_serial level s) as (Hr' & Hs' & _).
  rewrite Hr', Hs', Hr, Hs. auto.
Qed.

(** C27: requests are answered one per loop iteration and in the order
    they were sent: with [n] complete frames buffered, [n] iterations
    consume exactly those frames, whatever the switch does, and the
    letters of the replies written are the letters of the known
    requests, in order; unknown letters get no reply. *)
Theorem requests_answered_in_order reqs levels rest s :
  serialIn s = concat (map request_frame reqs) ++ rest ->
  Forall request_no_cr reqs -> length levels = length reqs ->
  let t := run_loop levels s in
  serialIn t = rest /\
  exists R, replies (io t) = replies (io s) ++ R /\
    map (fun r => nth 1 r NUL) R = List.filter known (map request_letter reqs).
Proof.
  revert levels s. induction reqs as [|r reqs IH]; intros [|level levels] s Hin Hn Hlen;
    simpl in *; try discriminate.
  - split; [exact Hin|]. exists []. by rewrite app_nil_r.
  - apply Forall_cons_1 in Hn as [Hr Hn]. rewrite <- app_assoc in Hin.
    destruct (loop_request level r _ s Hin Hr) as [Hs Hrep].
    destruct (IH levels (loop level s) Hs Hn ltac:(lia)) as [Hs' (R & HR & Hl)].
    split; [exact Hs'|].
    exists ((match decode (request_letter r) with
      | Some c => [reply (request_letter r) (deviceId s) (reply_payload c (request_payload r) s)]
      | None => []
      end) ++ R).
    rewrite HR, Hrep, app_assoc. split; [reflexivity|].
    rewrite map_app, Hl. unfold known. by destruct (decode (request_letter r)).
Qed.

(** ** An open request runs to completion *)

(** [handleMotor] acts on the fields of [shutter_view] only through them. *)
Lemma handleMotor_view u v :
  shutter_view u = shutter_view v -> shutter_view (handleMotor u) = shutter_view (handleMotor v).
Proof.
  destruct u, v. unfold shutter_view. cbn. intros E. injection E as -> -> -> -> ->.
  unfold handleMotor, arrive. cbn. repeat case_match; reflexivity.
Qed.

Lemma handleMotor_iter_view (n : nat) u v :
  shutter_view u = shutter_view v ->
  shutter_view ((handleMotor ^^ n) u) = shutter_view ((handleMotor ^^ n) v).
Proof. induction n; intros E; simpl; [exact E | apply handleMotor_view; auto]. Qed.

(** ** Motion with the servo detached *)

(** With no complete frame buffered and the switch steady, an iteration
    of [loop] is exactly one motor step. *)
Lemma loop_steady level u :
  (length (serialIn u) < 6)%nat -> currentSwitchState u = level -> lastSwitchState u = level ->
  loop level u = handleMotor u.
Proof.
  intros Hlen Hc Hl. unfold loop. rewrite handleSerial_short by exact Hlen.
  destruct (handleMotor_keeps_switch u) as (Hc' & Hl' & _).
  unfold switch_edge. state_simpl. rewrite bool_decide_eq_false_2 by congruence.
  destruct (handleMotor u); cbn in *. unfold set_currentSwitchState. cbn. congruence.
Qed.

Lemma handleMotor_iter_keeps (n : nat) u :
  let w := (handleMotor ^^ n) u in
  serialIn w = serialIn u /\ currentSwitchState w = currentSwitchState u /\
  lastSwitchState w = lastSwitchState u.
Proof.
  induction n as [|n (IH1 & IH2 & IH3)]; [simpl; auto|]. cbn zeta in *. simpl Nat.iter.
  destruct (handleMotor_keeps_switch ((handleMotor ^^ n) u)) as (H1 & H2 & H3). repeat split; congruence.
Qed.

Lemma loop_steady_iter (n : nat) level u :
  (length (serialIn u) < 6)%nat -> currentSwitchState u = level -> lastSwitchState u = level ->
  (loop level ^^ n) u = (handleMotor ^^ n) u.
Proof.
  intros Hlen Hc Hl. induction n as [|n IH]; [reflexivity|]. simpl Nat.iter. rewrite IH.
  destruct (handleMotor_iter_keeps n u) as (H1 & H2 & H3).
  apply loop_steady; congruence.
Qed.

(** Each step of a motion writes to the servo; while it is detached
    every write goes to the unpowered servo. *)
Lemma motion_detached (k : nat) s :
  motion_ok s -> motorDirection s <> NONE -> Z.of_nat k <= steps_left s ->
  servo_attached (io s) = false ->
  servo_attached (io ((handleMotor ^^ k) s)) = false /\
  detached_writes (io ((handleMotor ^^ k) s)) = (detached_writes (io s) + k)%nat.
Proof.
  intros Hok Hd. induction k as [|k IH]; intros Hk Ha; [simpl; auto|].
  rewrite Nat.iter_succ.
  destruct (motion_run k s Hok Hd) as (Hd1 & _ & _ & _ & Hok1 & _); [lia|].
  cbn zeta in *. set (u := (handleMotor ^^ k) s) in *.
  destruct (handleMotor_moving u Hok1 ltac:(congruence)) as (_ & _ & _ & _ & Hio & _).
  destruct (IH ltac:(lia) Ha) as [Ha' Hw]. rewrite Hio. cbn [servo_attached detached_writes].
  rewrite Ha', Hw. split; [reflexivity | lia].
Qed.

(** C21: the switch gates new requests only, not motion in progress:
    from any state of the invariant where the shutter is moving and the
    switch was sampled low (so the servo is detached), if the switch
    stays low and no request arrives, [handleMotor] still runs the motion
    to its end, one [Servo.write] per iteration to the detached servo,
    and the cover is then reported at the end point although the servo
    never moved. *)
Theorem detached_motion s :
  system_inv s -> motorDirection s <> NONE -> currentSwitchState s = false ->
  (length (serialIn s) < 6)%nat ->
  let n := Z.to_nat (steps_left s) in
  let t := (loop false ^^ n) s in
  motorDirection t = NONE /\ coverStatus t = dir_goal (motorDirection s) /\
  currentAngle t = targetAngle s /\ servo_attached (io t) = false /\
  detached_writes (io t) = (detached_writes (io s) + n)%nat.
Proof.
  intros (Hs & _ & Hls & Hat) Hd Hsw Hlen. cbn zeta.
  rewrite (loop_steady_iter _ false s Hlen Hsw) by congruence.
  pose proof (inv_motion_ok s Hs) as Hok.
  destruct (motion_arrive s Hok Hd) as (Hd' & _ & Hc' & Ha' & _).
  destruct (motion_detached (Z.to_nat (steps_left s)) s Hok Hd) as [Hat' Hw];
    [pose proof (steps_left_motion s Hok Hd); lia | congruence |].
  auto.
Qed.

(** C28: liveness of the open command: in a state of the invariant with
    the cover closed and the switch on, an [O] request is answered in the
    first iteration, and if the switch stays on and no further request
    arrives, the cover is reported open at [OPEN_ANGLE], with the motor
    stopped, after 270 iterations of [loop]. *)
Theorem open_request_completes m p1 p2 p3 s :
  system_inv s -> currentSwitchState s = true -> coverStatus s = CLOSED ->
  serialIn s = frame m "O" p1 p2 p3 ->
  Forall (fun c => c <> CR) [m; "O"%char; p1; p2; p3] ->
  let t := (loop true ^^ 270) s in
  coverStatus t = OPEN /\ currentAngle t = OPEN_ANGLE /\ motorDirection t = NONE /\
  motorStatus t = STOPPED /\ serialIn t = [].
Proof.
  intros [Hs [_ [Hls _]]] Hsw Hc Hin Hn. cbn zeta.
  assert (Hin' : serialIn s = frame m "O" p1 p2 p3 ++ []) by (rewrite app_nil_r; exact Hin).
  set (u := loop true s).
  destruct (handleSerial_frame_fields _ _ _ _ _ _ _ Hin' Hn) as (_ & Hs1 & _).
  destruct (loop_after_serial true s) as (_ & Hsu & _). fold u in Hsu. rewrite Hs1 in Hsu.
  (* the first iteration is the request and one motor step *)
  assert (Hv1 : shutter_view u = shutter_view (handleMotor (setShutter OPEN s))).
  { unfold u, loop. rewrite switch_edge_view. apply handleMotor_view.
    rewrite (handleSerial_frame_eq _ _ _ _ _ _ _ Hin' Hn), decode_O. simpl.
    cbn [sc_setShutter shutter_control]. unfold setShutter. state_simpl.
    rewrite Hsw. simpl. repeat case_match; reflexivity. }
  assert (Hswu : currentSwitchState u = true /\ lastSwitchState u = true).
  { destruct (handleSerial_switch s) as (H1 & H2 & _).
    destruct (handleMotor_keeps_switch (handleSerial s)) as (H3 & H4 & _).
    unfold u, loop, switch_edge. state_simpl. case_bool_decide; state_simpl; split; congruence. }
  rewrite Nat.iter_succ_r. fold u.
  rewrite (loop_steady_iter 269 true u) by first [rewrite Hsu; simpl; lia | apply Hswu].
  pose proof (handleMotor_iter_view 269 _ _ Hv1) as Hv. rewrite <- Nat.iter_succ_r in Hv.
  destruct (handleMotor_iter_keeps 269 u) as (Hser & _).
  destruct (request_from_rest OPEN s Hs Hsw (or_introl (conj eq_refl Hc))) as (Hok & Hd & Hg & Hl & _).
  destruct (travel 270 _ Hok Hd) as [_ Harr].
  destruct Harr as (Hm' & Hc' & Hd' & Ha' & _); [rewrite Hl; unfold CLOSED_ANGLE, OPEN_ANGLE; lia|].
  destruct (shutter_view_fields _ _ Hv) as (Hm2 & Hc2 & Hd2 & _ & Ha2).
  rewrite Hm2, Hc2, Hd2, Ha2, Hm', Hc', Hd', Ha', Hg.
  assert (Ht : targetAngle (setShutter OPEN s) = OPEN_ANGLE)
    by (unfold setShutter; rewrite Hsw, Hc; reflexivity).
  rewrite Hser, Hsu. auto.
Qed.

(** ** Witnesses *)

(** A Flip-Flat whose switch went high in a first iteration and which
    then received an open request. *)
Definition opening_state : State :=
  iteration (frame ">" "O" "O" "O" "O") true (iteration [] true (boot FLIP_FLAT)).

Lemma reachable_inv_witness :
  system_inv opening_state /\ deviceId opening_state = FLIP_FLAT.
Proof. apply reachable_inv. repeat constructor. Defined.

Lemma status_invariants_witness :
  let s := opening_state in
  (motorStatus s = RUNNING <-> motorDirection s <> NONE) /\
  (coverStatus s = NEITHER_OPEN_NOR_CLOSED <-> motorDirection s <> NONE) /\
  (coverStatus s = OPEN -> currentAngle s = OPEN_ANGLE) /\
  (coverStatus s = CLOSED -> currentAngle s = CLOSED_ANGLE) /\
  coverStatus s <> TIMED_OUT /\
  OPEN_ANGLE <= currentAngle s <= CLOSED_ANGLE.
Proof. apply (status_invariants FLIP_FLAT). repeat constructor. Defined.

Lemma status_reply_phase_witness :
  let s := receive (frame ">" "S" "O" "O" "O") opening_state in
  replies (io (handleSerial s)) =
  replies (io s) ++
  [reply "S" (deviceId s)
     (fmt_d (motorStatuses_val (Abstract.status (phase_of s)).1) ++
      fmt_d (lightStatuses_val (lightStatus s)) ++
      fmt_d (shutterStatuses_val (Abstract.status (phase_of s)).2))].
Proof. apply (status_reply_phase ">" "O" "O" "O" []); [decide_true | by_eval | decide_true]. Defined.

Lemma brightness_echo_witness :
  let s := receive (frame ">" "B" "1" "2" "8" ++ frame ">" "J" "O" "O" "O" ++ []) (boot FLIP_FLAT) in
  let b := brightness_ref (atoi ["1"; "2"; "8"]%char) in
  let u := loop false (loop false s) in
  replies (io u) = replies (io s) ++ [reply "B" (deviceId s) (fmt_0d 3 b); reply "J" (deviceId s) (fmt_0d 3 b)] /\
  brightness u = b.
Proof. apply (brightness_echo ">" "1" "2" "8" ">" "O" "O" "O" []); [by_eval | decide_true | decide_true]. Defined.

Lemma light_restore_witness :
  let s := receive (frame ">" "D" "O" "O" "O" ++ frame ">" "L" "O" "O" "O" ++ []) (boot FLIP_FLAT) in
  let u := loop true (loop true s) in
  led_level (io u) = Some (brightness s) /\ lightStatus u = ON /\ brightness u = brightness s.
Proof. apply (light_restore ">" "O" "O" "O" ">" "O" "O" "O" []); [by_eval | decide_true | decide_true]. Defined.

Lemma request_dropped_switch_off_witness :
  let s := receive (frame ">" "O" "O" "O" "O") (boot FLIP_FLAT) in
  let u := loop false s in
  motorDirection u = NONE /\ coverStatus u = coverStatus s /\ currentAngle u = currentAngle s /\
  replies (io u) = replies (io s) ++ [reply "O" (deviceId s) OOO].
Proof.
  apply (request_dropped_switch_off ">" "O" "O" "O" "O" []);
    [decide_true | by_eval | by_eval | left; reflexivity | by_eval | decide_true].
Defined.

Lemma open_ignores_device_witness :
  let s := receive (frame ">" "O" "O" "O" "O") (iteration [] true (boot FLAT_MAN)) in
  let u := loop true s in
  motorDirection u = OPENING /\ currentAngle u = CLOSED_ANGLE - 1 /\
  replies (io u) = replies (io s) ++ [reply "O" (deviceId s) OOO].
Proof.
  apply (open_ignores_device ">" "O" "O" "O" []);
    [decide_true | by_eval | by_eval | by_eval | decide_true].
Defined.

Lemma requests_answered_in_order_witness :
  let reqs := [(">", "S", "O", "O", "O"); (">", "Z", "O", "O", "O"); (">", "V", "O", "O", "O")]%char in
  let s := receive (concat (map request_frame reqs)) (boot FLIP_FLAT) in
  let t := run_loop [true; false; true] s in
  serialIn t = [] /\
  exists R, replies (io t) = replies (io s) ++ R /\
    map (fun r => nth 1 r NUL) R = List.filter known (map request_letter reqs).
Proof.
  apply (requests_answered_in_order
           [(">", "S", "O", "O", "O"); (">", "Z", "O", "O", "O"); (">", "V", "O", "O", "O")]%char);
    [by_eval | decide_true | reflexivity].
Defined.

Lemma open_request_completes_witness :
  let s := receive (frame ">" "O" "O" "O" "O") (iteration [] true (boot FLIP_FLAT)) in
  let t := (loop true ^^ 270) s in
  coverStatus t = OPEN /\ currentAngle t = OPEN_ANGLE /\ motorDirection t = NONE /\
  motorStatus t = STOPPED /\ serialIn t = [].
Proof.
  apply (open_request_completes ">" "O" "O" "O");
    [decide_true | by_eval | by_eval | by_eval | decide_true].
Defined.

Lemma detached_motion_witness :
  let s := open_then_switch_off 1 in
  let n := Z.to_nat (steps_left s) in
  let t := (loop false ^^ n) s in
  motorDirection t = NONE /\ coverStatus t = dir_goal (motorDirection s) /\
  currentAngle t = targetAngle s /\ servo_attached (io t) = false /\
  detached_writes (io t) = (detached_writes (io s) + n)%nat.
Proof. apply detached_motion; [decide_true | decide_true | by_eval | decide_true]. Defined.
