(* ===== verification/Typing.v ===== *)
(** * Typing: every value of the sketch fits its C type

    The model computes on unbounded integers; on the AVR boards the
    sketch targets, [int] is 16 bits wide, [analogWrite] takes a duty
    cycle of one byte on a PWM pin and [Servo.write] an angle.  This file
    shows that the unbounded model never leaves those types: in every
    reachable state the [int] globals [targetAngle] and [currentAngle]
    are 16-bit values (so [--currentAngle] and [++currentAngle] of
    main.cpp 264 and 275 never wrap), the brightness is a byte, and every
    peripheral call of the trace has arguments of its type: [analogWrite]
    only on [LED_PIN] with a duty in [0 .. 255], [Servo.write] only with
    angles between [OPEN_ANGLE] and [CLOSED_ANGLE], [attach] only on
    [SERVO_PIN].

    [io_ext t s] says that the trace of [t] extends that of [s] with
    well-typed calls; each operation of the loop is shown to extend the
    trace that way, and the invariant follows by rule induction on
    [reachable]. *)

From S2P Require Import Prelude Device Shutter Text SoftFloat Brightness Dispatcher Loop.
Open Scope Z_scope.
Open Scope flatbox_scope.

(** The width of [int] on AVR. *)
Definition INT_BITS : Z := 16.

Definition int_typed (z : Z) : Prop := - 2 ^ (INT_BITS - 1) <= z < 2 ^ (INT_BITS - 1).

(** The arguments a peripheral call takes. *)
Definition event_ok (e : event) : Prop :=
  match e with
  | AnalogWrite p v => p = LED_PIN /\ 0 <= v <= 255
  | ServoWrite v => OPEN_ANGLE <= v <= CLOSED_ANGLE
  | ServoAttach p => p = SERVO_PIN
  | _ => True
  end.

#[export] Instance event_ok_dec e : Decision (event_ok e).
Proof. destruct e; simpl; apply _. Defined.

Definition c_typed (s : State) : Prop :=
  int_typed (targetAngle s) /\ int_typed (currentAngle s) /\ 0 <= brightness s <= 255 /\
  Forall event_ok (io s).

(** The trace of [t] is that of [s] followed by well-typed calls. *)
Definition io_ext (t s : State) : Prop :=
  exists l, io t = l ++ io s /\ Forall event_ok l.

(** ** Extending traces *)

Lemma io_ext_same t s : io t = io s -> io_ext t s.
Proof. intros E. exists []. auto. Qed.

Lemma io_ext_trans t u s : io_ext t u -> io_ext u s -> io_ext t s.
Proof.
  intros (l1 & E1 & F1) (l2 & E2 & F2). exists (l1 ++ l2).
  rewrite E1, E2, app_assoc. split; [reflexivity|]. by apply Forall_app.
Qed.

Lemma io_ext_emit e t s : event_ok e -> io_ext t s -> io_ext (emit e t) s.
Proof. intros He (l & E & F). exists (e :: l). cbn [io emit]. rewrite E. auto. Qed.

Lemma io_ext_Forall t s : io_ext t s -> Forall event_ok (io s) -> Forall event_ok (io t).
Proof. intros (l & E & F) Hs. rewrite E. by apply Forall_app. Qed.

#[export] Hint Resolve io_ext_same io_ext_emit : flatbox.

(** Peel the calls off a state built by setters and [emit]. *)
Ltac ext_solve :=
  repeat first
    [ apply io_ext_emit; [cbn [event_ok]; first [exact I | split; [reflexivity | lia] | reflexivity] |]
    | apply io_ext_same; state_simpl; autorewrite with flatbox; reflexivity ].

Lemma run_command_ext c str s :
  0 <= brightness s <= 255 -> io_ext (run_command c str s) s.
Proof.
  intros Hb. destruct c; unfold run_command, serial_write, analogWrite; ext_solve.
  pose proof (brightness_curve_range binary32 (atoi (data_of str))).
  case_bool_decide; ext_solve.
Qed.

Lemma handleSerial_ext s : 0 <= brightness s <= 255 -> io_ext (handleSerial s) s.
Proof.
  intros Hb. unfold handleSerial. case_bool_decide; [|by apply io_ext_same].
  destruct (read_frame (serialIn s)) as [str rest].
  apply io_ext_trans with (set_serialIn rest s); [|by apply io_ext_same].
  destruct (decode (cmd_of str)); [apply run_command_ext; exact Hb | by apply io_ext_same].
Qed.

Lemma handleMotor_io u :
  io (handleMotor u) = io u \/
  io (handleMotor u) = Delay SERVO_DELAY :: ServoWrite (currentAngle (handleMotor u)) :: io u.
Proof. unfold handleMotor, arrive. repeat case_match; state_simpl; auto. Qed.

Lemma inv_angles s :
  shutter_inv s ->
  OPEN_ANGLE <= currentAngle s <= CLOSED_ANGLE /\ OPEN_ANGLE <= targetAngle s <= CLOSED_ANGLE.
Proof. unfold shutter_inv. case_match; shutter_solve. Qed.

Lemma handleMotor_ext u : shutter_inv (handleMotor u) -> io_ext (handleMotor u) u.
Proof.
  intros Hs. destruct (inv_angles _ Hs) as [Ha _].
  destruct (handleMotor_io u) as [E | E]; [by apply io_ext_same|].
  exists [Delay SERVO_DELAY; ServoWrite (currentAngle (handleMotor u))].
  split; [exact E|]. constructor; [exact I|]. constructor; [exact Ha | constructor].
Qed.

Lemma switch_edge_ext level s : io_ext (switch_edge level s) s.
Proof. unfold switch_edge. case_bool_decide; [destruct level|]; ext_solve. Qed.

Lemma iteration_ext bytes level s : system_inv s -> io_ext (iteration bytes level s) s.
Proof.
  intros Hs0. pose proof (receive_inv bytes s Hs0) as (Hs & [Hb _] & _).
  unfold iteration, loop. set (r := receive bytes s) in *.
  destruct (handleSerial_shutter r Hs) as [Hok Hnone].
  apply io_ext_trans with (handleMotor (handleSerial r)); [apply switch_edge_ext|].
  apply io_ext_trans with (handleSerial r); [by apply handleMotor_ext, motion_ok_step_inv|].
  apply io_ext_trans with r; [by apply handleSerial_ext | by apply io_ext_same].
Qed.

Lemma boot_typed dev : Forall event_ok (io (boot dev)).
Proof. destruct dev; decide_true. Qed.

(** C26: every state the device reaches has the C types of the sketch:
    [targetAngle] and [currentAngle] are 16-bit [int]s (the increments of
    [handleMotor] never overflow), the brightness is a byte, and every
    call recorded in the trace has arguments of its type: [analogWrite]
    on [LED_PIN] with a duty in [0 .. 255], [Servo.write] with an angle
    in [OPEN_ANGLE .. CLOSED_ANGLE], [attach] on [SERVO_PIN]. *)
Theorem reachable_c_typed dev s : reachable dev s -> c_typed s.
Proof.
  intros Hr. destruct (reachable_system_inv dev s Hr) as [(Hs & [Hb _] & _) _].
  destruct (inv_angles _ Hs) as [Ha Ht].
  unfold c_typed, int_typed, INT_BITS, OPEN_ANGLE, CLOSED_ANGLE in *. simpl.
  split; [lia|]. split; [lia|]. split; [exact Hb|].
  clear Hs Hb Ha Ht. induction Hr as [|s bytes level Hr IH]; [apply boot_typed|].
  apply (io_ext_Forall _ s); [|exact IH].
  apply iteration_ext. by destruct (reachable_system_inv dev s Hr).
Qed.

(** ** Witnesses *)

Lemma reachable_c_typed_witness : c_typed opening_state.
Proof. apply (reachable_c_typed FLIP_FLAT). repeat constructor. Defined.
